(** * The entity HTTP client of [src/api.js]

    [api.js] exports thirteen asynchronous functions.  Each one builds a
    URL with a template literal, awaits one [fetch], tests [response.ok],
    throws [new Error(...)] when it is false and otherwise returns
    [response.json()].

    The development has three layers:
    - the JavaScript values the functions receive and return, with the
      built-ins the source calls on them ([ToString] of a template
      literal, [JSON.stringify], and the [JSON.parse] behind
      [response.json()]);
    - the Fetch API as the source uses it: a request, a response with
      [ok] and [json()], and an [Async] monad that records every network
      interaction in a log and keeps it when a call rejects;
    - the thirteen functions, transcribed line by line, and the
      properties of them.

    The built-ins are modelled on a fragment of JavaScript: numbers are
    the safe integers, response bodies are ASCII JSON texts with integer
    numbers.  Where a built-in is asked something outside the fragment
    the model answers [Undetermined] and says nothing about the code.

    Definitions come first; the facts start at "Facts about JSON". *)

From Stdlib Require Import String Ascii List ZArith Bool Lia Eqdep_dec.
From Stdlib Require Import DecimalString DecimalPos DecimalFacts.
Import ListNotations.

Local Open Scope string_scope.
Local Open Scope Z_scope.

(** ** Errors and completions *)

(** A JavaScript error object: the name of its class and its message. *)
Record JSError : Type := mkError { name : string; message : string }.

(** [new Error(message)]. *)
Definition Error (message : string) : JSError := mkError "Error" message.

(** The error [JSON.parse] throws; engines word its message differently. *)
Definition SyntaxError (message : string) : JSError := mkError "SyntaxError" message.

(** The error [fetch] rejects with when the transport fails, and the one
    a conversion to a primitive throws. *)
Definition TypeError (message : string) : JSError := mkError "TypeError" message.

(** How a step of the client ends: a promise fulfils or rejects, an
    expression yields a value or throws.  [Undetermined] is the model's
    own third answer: the step asked a built-in something outside the
    modelled fragment, and the model does not say how the real step
    ends. *)
Inductive Settled (A : Type) : Type :=
| Fulfilled (value : A)
| Rejected (reason : JSError)
| Undetermined.
Arguments Fulfilled {A} value.
Arguments Rejected {A} reason.
Arguments Undetermined {A}.

Definition map_settled {A B : Type} (f : A -> B) (s : Settled A) : Settled B :=
  match s with
  | Fulfilled a => Fulfilled (f a)
  | Rejected e => Rejected e
  | Undetermined => Undetermined
  end.

(** The results of steps taken from left to right: all of them when
    every step yields one, else the ending of the first step that does
    not. *)
Fixpoint all_fulfilled {A : Type} (steps : list (Settled A)) : Settled (list A) :=
  match steps with
  | [] => Fulfilled []
  | Fulfilled a :: rest => map_settled (cons a) (all_fulfilled rest)
  | Rejected e :: _ => Rejected e
  | Undetermined :: _ => Undetermined
  end.

(** ** JavaScript values *)

(** The integers a Number holds exactly and prints digit by digit:
    those strictly between -2^53 and 2^53. *)
Definition safe_integer (n : Z) : bool := (- 2 ^ 53 <? n) && (n <? 2 ^ 53).

Record SafeInt : Type := mkSafe {
  int_value : Z;
  int_safe : safe_integer int_value = true
}.

Definition to_safe (n : Z) : option SafeInt :=
  match safe_integer n as b return safe_integer n = b -> option SafeInt with
  | true => fun H => Some (mkSafe n H)
  | false => fun _ => None
  end eq_refl.

Definition safe_of_int (d : Number.int) : option SafeInt :=
  match d with
  | Number.IntDecimal d => to_safe (Z.of_int d)
  | Number.IntHexadecimal _ => None
  end.

Definition safe_to_int (n : SafeInt) : Number.int :=
  Number.IntDecimal (Z.to_int (int_value n)).

(** A numeral where a [SafeInt] is expected is read as one; a numeral
    outside the range is refused. *)
Declare Scope safe_scope.
Delimit Scope safe_scope with safe.
Bind Scope safe_scope with SafeInt.
Number Notation SafeInt safe_of_int safe_to_int : safe_scope.

(** The values that cross the client: what a caller passes as entity
    name, column, identifier or record, and what [response.json()]
    produces.  They are the JSON-like values: [null], booleans, numbers
    that are safe integers, strings, arrays and plain objects.  An
    object is written as the list of its own properties in the order
    they were defined; [JSON.canonical] lists them as the object
    enumerates them. *)
#[warnings="-register-all"]
Inductive JSValue : Type :=
| JNull
| JBool (b : bool)
| JNum (n : SafeInt)
| JStr (s : string)
| JArr (elements : list JSValue)
| JObj (properties : list (string * JSValue)).

(** Induction on a value with the hypothesis available for every
    element of an array and every property value of an object. *)
Section JSValue_induction.
Variable P : JSValue -> Prop.
Hypothesis Hnull : P JNull.
Hypothesis Hbool : forall b, P (JBool b).
Hypothesis Hnum : forall n, P (JNum n).
Hypothesis Hstr : forall s, P (JStr s).
Hypothesis Harr : forall elements, Forall P elements -> P (JArr elements).
Hypothesis Hobj : forall properties,
    Forall (fun p => P (snd p)) properties -> P (JObj properties).

Fixpoint JSValue_nested_ind (v : JSValue) : P v :=
  match v with
  | JNull => Hnull
  | JBool b => Hbool b
  | JNum n => Hnum n
  | JStr s => Hstr s
  | JArr elements =>
      Harr elements
        ((fix all (l : list JSValue) : Forall P l :=
            match l with
            | [] => Forall_nil P
            | x :: r => Forall_cons x (JSValue_nested_ind x) (all r)
            end) elements)
  | JObj properties =>
      Hobj properties
        ((fix all (l : list (string * JSValue)) : Forall (fun p => P (snd p)) l :=
            match l with
            | [] => Forall_nil _
            | (k, x) :: r =>
                Forall_cons (P := fun p => P (snd p)) (k, x) (JSValue_nested_ind x) (all r)
            end) properties)
  end.
End JSValue_induction.

(** The double quote character (code 34). *)
Definition DQ : ascii := "034"%char.

(** The backslash character (code 92). *)
Definition BSL : ascii := "092"%char.

(** [Array.prototype.join]-style concatenation with a separator. *)
Fixpoint join (sep : string) (parts : list string) : string :=
  match parts with
  | [] => ""
  | [p] => p
  | p :: rest => p ++ sep ++ join sep rest
  end.

(** Decimal rendering of a Number that is a safe integer
    ([Number::toString] with radix 10): its digits, with a minus sign
    when it is negative. *)
Definition number_to_string (n : SafeInt) : string :=
  NilZero.string_of_int (Z.to_int (int_value n)).

(** Whether an object has an own property of that name. *)
Fixpoint has_key (k : string) (properties : list (string * JSValue)) : bool :=
  match properties with
  | [] => false
  | (k', _) :: rest => String.eqb k k' || has_key k rest
  end.

(** [ToString], the conversion a template literal applies to each
    substitution [${x}].  A string is left as it is; an array is joined
    with commas, its [null] elements rendered empty and the others
    converted in turn.  An object is converted through its [toString]
    method: a plain object inherits the one that answers
    [[object Object]], but an own property named [toString] hides it,
    and since a property of a JSON-like object is never a function (and
    [valueOf] gives back the object), the conversion then throws a
    [TypeError]. *)
Fixpoint ToString (v : JSValue) : Settled string :=
  match v with
  | JNull => Fulfilled "null"
  | JBool true => Fulfilled "true"
  | JBool false => Fulfilled "false"
  | JNum n => Fulfilled (number_to_string n)
  | JStr s => Fulfilled s
  | JArr elements =>
      map_settled (join ",")
        (all_fulfilled (map (fun e => match e with
                                      | JNull => Fulfilled ""
                                      | _ => ToString e
                                      end) elements))
  | JObj properties =>
      if has_key "toString" properties
      then Rejected (TypeError "Cannot convert object to primitive value")
      else Fulfilled "[object Object]"
  end.

(** One piece of a template literal: literal text or a substitution. *)
Inductive Part : Type :=
| Lit (s : string)
| Sub (v : JSValue).

Definition part_string (p : Part) : Settled string :=
  match p with
  | Lit s => Fulfilled s
  | Sub v => ToString v
  end.

(** A template literal: its substitutions are converted from left to
    right and the pieces concatenated; a conversion that throws ends the
    evaluation. *)
Definition template (parts : list Part) : Settled string :=
  map_settled (join "") (all_fulfilled (map part_string parts)).

(** ** JSON *)

Module JSON.

(** *** Objects

    A [JObj] lists properties in the order they are defined; the object
    it stands for has each name once, with the value defined last, and
    enumerates array indices first, in ascending order, then the other
    names in the order of their first definition. *)

Definition digit_value (c : ascii) : option nat :=
  let n := nat_of_ascii c in
  if (Nat.leb 48 n && Nat.leb n 57)%bool then Some (n - 48)%nat else None.

(** The number a run of digits writes, read after [acc]; [None] when a
    character is no digit. *)
Fixpoint digits_value (s : string) (acc : Z) : option Z :=
  match s with
  | EmptyString => Some acc
  | String c rest =>
      match digit_value c with
      | Some d => digits_value rest (acc * 10 + Z.of_nat d)
      | None => None
      end
  end.

(** An array index: the canonical numeral, with no leading zero, of an
    integer from 0 to 2^32 - 2. *)
Definition array_index (k : string) : option Z :=
  match k with
  | EmptyString => None
  | String c rest =>
      if (Ascii.eqb c "0" && negb (String.eqb rest ""))%bool then None
      else match digits_value k 0 with
           | Some n => if n <=? 4294967294 then Some n else None
           | None => None
           end
  end.

(** Whether a new property [k] is enumerated before the property [k']. *)
Definition goes_before (k k' : string) : bool :=
  match array_index k, array_index k' with
  | Some i, Some j => i <? j
  | Some _, None => true
  | None, _ => false
  end.

(** [CreateDataProperty]: a name already present keeps its place and
    takes the new value; a new array index goes among the indices by
    its value; any other new name goes last. *)
Fixpoint define (k : string) (v : JSValue) (props : list (string * JSValue))
  : list (string * JSValue) :=
  match props with
  | [] => [(k, v)]
  | (k', v') :: rest =>
      if String.eqb k k' then (k', v) :: rest
      else if (goes_before k k' && negb (has_key k rest))%bool
           then (k, v) :: (k', v') :: rest
           else (k', v') :: define k v rest
  end.

(** The value with the properties of every object as the object
    enumerates them. *)
Fixpoint canonical (v : JSValue) : JSValue :=
  match v with
  | JArr elements => JArr (map canonical elements)
  | JObj properties =>
      JObj (fold_left (fun done p => match p with
                                     | (k, x) => define k (canonical x) done
                                     end) properties [])
  | _ => v
  end.

(** *** Serialisation *)

Definition hex_digit (n : nat) : ascii :=
  match n with
  | 0 => "0" | 1 => "1" | 2 => "2" | 3 => "3" | 4 => "4" | 5 => "5"
  | 6 => "6" | 7 => "7" | 8 => "8" | 9 => "9" | 10 => "a" | 11 => "b"
  | 12 => "c" | 13 => "d" | 14 => "e" | _ => "f"
  end%nat%char.

(** The escape sequence [QuoteJSONString] emits for one character. *)
Definition escape_char (c : ascii) : string :=
  let n := nat_of_ascii c in
  if Ascii.eqb c DQ then String BSL (String DQ "")
  else if Ascii.eqb c BSL then String BSL (String BSL "")
  else if Nat.eqb n 8 then String BSL "b"
  else if Nat.eqb n 9 then String BSL "t"
  else if Nat.eqb n 10 then String BSL "n"
  else if Nat.eqb n 12 then String BSL "f"
  else if Nat.eqb n 13 then String BSL "r"
  else if Nat.ltb n 32 then
    String BSL ("u00" ++ String (hex_digit (n / 16)) (String (hex_digit (n mod 16)) ""))
  else String c "".

Fixpoint escape (s : string) : string :=
  match s with
  | EmptyString => ""
  | String c rest => escape_char c ++ escape rest
  end.

(** [QuoteJSONString]. *)
Definition quote (s : string) : string :=
  String DQ (escape s ++ String DQ "").

(** The JSON text of a value whose properties are listed as they are
    enumerated. *)
Fixpoint serialise (v : JSValue) : string :=
  match v with
  | JNull => "null"
  | JBool true => "true"
  | JBool false => "false"
  | JNum n => number_to_string n
  | JStr s => quote s
  | JArr elements => "[" ++ join "," (map serialise elements) ++ "]"
  | JObj properties =>
      "{" ++ join "," (map (fun p => match p with
                                     | (k, x) => quote k ++ ":" ++ serialise x
                                     end) properties) ++ "}"
  end.

(** [JSON.stringify(value)] with no replacer and no indentation. *)
Definition stringify (v : JSValue) : string := serialise (canonical v).

(** *** Parsing

    [JSON.parse] in two total passes: a lexer that is a state machine
    over the characters of the text, and a parser that is a pushdown
    machine over the tokens.  Both recurse on their input only, so the
    whole function is total.

    The passes read the text from left to right and stop at the first
    character or token that ends the matter: a [Bad] one, at which the
    built-in throws its [SyntaxError], or one that leads [Beyond] the
    modelled fragment, at which the model stops without an answer.
    Beyond the fragment lie: a byte that is not ASCII (the body of a
    response is decoded as UTF-8 before it is parsed, and decoding is
    not modelled), a number with a fraction or an exponent, a number
    that is not a safe integer, a negative zero, a [\u] escape of a
    character that is not ASCII, and a property name made of digits
    (an array index or a name that looks like one). *)

Inductive Token : Type :=
| TLBrace | TRBrace | TLBracket | TRBracket | TColon | TComma
| TString (s : string)
| TNumber (n : SafeInt)
| TTrue | TFalse | TNull.

Inductive LexMode : Type :=
| LStart                                  (* between two tokens *)
| LWord (rest : string) (t : Token)       (* inside true, false, null *)
| LMinus                                  (* after the sign of a number *)
| LZero                                   (* after a leading zero *)
| LDigits (neg : bool) (acc : Z)          (* inside the digits *)
| LString (acc : string)                  (* inside a string *)
| LEscape (acc : string)                  (* after a backslash *)
| LUnicode (acc : string) (seen : nat) (code : N). (* inside \uXXXX *)

(** What one character or token does to a machine in state [S]. *)
Inductive Step (S : Type) : Type :=
| Next (s : S)
| Bad
| Beyond.
Arguments Next {S} s.
Arguments Bad {S}.
Arguments Beyond {S}.

Definition is_ascii (c : ascii) : bool :=
  match c with
  | Ascii _ _ _ _ _ _ _ high => negb high
  end.

Definition is_whitespace (c : ascii) : bool :=
  let n := nat_of_ascii c in
  (Nat.eqb n 32 || Nat.eqb n 9 || Nat.eqb n 10 || Nat.eqb n 13)%bool.

Definition hex_value (c : ascii) : option nat :=
  let n := nat_of_ascii c in
  if (Nat.leb 48 n && Nat.leb n 57)%bool then Some (n - 48)%nat
  else if (Nat.leb 97 n && Nat.leb n 102)%bool then Some (n - 87)%nat
  else if (Nat.leb 65 n && Nat.leb n 70)%bool then Some (n - 55)%nat
  else None.

Definition snoc (s : string) (c : ascii) : string := s ++ String c "".

(** A character met between two tokens. *)
Definition start_step (c : ascii) : Step (LexMode * list Token) :=
  if is_whitespace c then Next (LStart, [])
  else if Ascii.eqb c "{" then Next (LStart, [TLBrace])
  else if Ascii.eqb c "}" then Next (LStart, [TRBrace])
  else if Ascii.eqb c "[" then Next (LStart, [TLBracket])
  else if Ascii.eqb c "]" then Next (LStart, [TRBracket])
  else if Ascii.eqb c ":" then Next (LStart, [TColon])
  else if Ascii.eqb c "," then Next (LStart, [TComma])
  else if Ascii.eqb c DQ then Next (LString "", [])
  else if Ascii.eqb c "-" then Next (LMinus, [])
  else if Ascii.eqb c "0" then Next (LZero, [])
  else if Ascii.eqb c "t" then Next (LWord "rue" TTrue, [])
  else if Ascii.eqb c "f" then Next (LWord "alse" TFalse, [])
  else if Ascii.eqb c "n" then Next (LWord "ull" TNull, [])
  else match digit_value c with
       | Some d => Next (LDigits false (Z.of_nat d), [])
       | None => Bad
       end.

Definition signed (neg : bool) (n : Z) : Z := if neg then - n else n.

(** The characters that continue a number into a fraction or an
    exponent. *)
Definition continues_number (c : ascii) : bool :=
  (Ascii.eqb c "." || Ascii.eqb c "e" || Ascii.eqb c "E")%bool.

(** A number ends at the first character that cannot continue it; that
    character then starts the next token. *)
Definition after_number (n : Z) (c : ascii) : Step (LexMode * list Token) :=
  if continues_number c then Beyond
  else match to_safe n with
       | None => Beyond
       | Some k =>
           match start_step c with
           | Next (m, out) => Next (m, TNumber k :: out)
           | Bad => Bad
           | Beyond => Beyond
           end
       end.

Definition lex_step (m : LexMode) (c : ascii) : Step (LexMode * list Token) :=
  if negb (is_ascii c) then Beyond
  else
    match m with
    | LStart => start_step c
    | LWord EmptyString _ => Bad
    | LWord (String x rest) t =>
        if Ascii.eqb c x then
          match rest with
          | EmptyString => Next (LStart, [t])
          | _ => Next (LWord rest t, [])
          end
        else Bad
    | LMinus =>
        if Ascii.eqb c "0" then Beyond
        else match digit_value c with
             | Some d => Next (LDigits true (Z.of_nat d), [])
             | None => Bad
             end
    | LZero =>
        match digit_value c with
        | Some _ => Bad
        | None => after_number 0 c
        end
    | LDigits neg acc =>
        match digit_value c with
        | Some d => Next (LDigits neg (acc * 10 + Z.of_nat d), [])
        | None => after_number (signed neg acc) c
        end
    | LString acc =>
        if Ascii.eqb c DQ then Next (LStart, [TString acc])
        else if Ascii.eqb c BSL then Next (LEscape acc, [])
        else if Nat.ltb (nat_of_ascii c) 32 then Bad
        else Next (LString (snoc acc c), [])
    | LEscape acc =>
        if Ascii.eqb c DQ then Next (LString (snoc acc DQ), [])
        else if Ascii.eqb c BSL then Next (LString (snoc acc BSL), [])
        else if Ascii.eqb c "/" then Next (LString (snoc acc "/"), [])
        else if Ascii.eqb c "b" then Next (LString (snoc acc (ascii_of_nat 8)), [])
        else if Ascii.eqb c "f" then Next (LString (snoc acc (ascii_of_nat 12)), [])
        else if Ascii.eqb c "n" then Next (LString (snoc acc (ascii_of_nat 10)), [])
        else if Ascii.eqb c "r" then Next (LString (snoc acc (ascii_of_nat 13)), [])
        else if Ascii.eqb c "t" then Next (LString (snoc acc (ascii_of_nat 9)), [])
        else if Ascii.eqb c "u" then Next (LUnicode acc 0 0, [])
        else Bad
    | LUnicode acc seen code =>
        match hex_value c with
        | None => Bad
        | Some h =>
            let code' := (code * 16 + N.of_nat h)%N in
            if Nat.eqb seen 3 then
              if (code' <? 128)%N
              then Next (LString (snoc acc (ascii_of_N code')), [])
              else Beyond
            else Next (LUnicode acc (S seen) code', [])
        end
    end.

(** The error of [JSON.parse]; its wording differs between engines. *)
Definition syntax_error : JSError := SyntaxError "Unexpected token in JSON".

(** What the end of the text means in each mode. *)
Definition lex_end (m : LexMode) : Settled (list Token) :=
  match m with
  | LStart => Fulfilled []
  | LZero => Fulfilled [TNumber 0]
  | LDigits neg acc =>
      match to_safe (signed neg acc) with
      | Some k => Fulfilled [TNumber k]
      | None => Undetermined
      end
  | _ => Rejected syntax_error
  end.

Fixpoint lex (m : LexMode) (text : string) : Settled (list Token) :=
  match text with
  | EmptyString => lex_end m
  | String c rest =>
      match lex_step m c with
      | Next (m', out) => map_settled (app out) (lex m' rest)
      | Bad => Rejected syntax_error
      | Beyond => Undetermined
      end
  end.

(** A container whose closing bracket has not been read yet: the
    elements or properties completed so far and, in an object, the key
    whose value is being read. *)
Inductive Frame : Type :=
| InArray (done : list JSValue)
| InObject (done : list (string * JSValue)) (key : string).

Inductive ParseState : Type :=
| PValue (stack : list Frame)             (* a value must follow *)
| PFirstElement (stack : list Frame)      (* after [ *)
| PFirstKey (stack : list Frame)          (* after { *)
| PKey (done : list (string * JSValue)) (stack : list Frame) (* after , in an object *)
| PColon (done : list (string * JSValue)) (key : string) (stack : list Frame)
| PDone (v : JSValue) (stack : list Frame). (* a value is complete *)

(** A property name that is a run of digits. *)
Fixpoint all_digits (s : string) : bool :=
  match s with
  | EmptyString => true
  | String c rest =>
      match digit_value c with
      | Some _ => all_digits rest
      | None => false
      end
  end.

Definition numeric_key (k : string) : bool :=
  match k with
  | EmptyString => false
  | _ => all_digits k
  end.

(** A token where a value must start. *)
Definition value_start (stack : list Frame) (t : Token) : Step ParseState :=
  match t with
  | TNull => Next (PDone JNull stack)
  | TTrue => Next (PDone (JBool true) stack)
  | TFalse => Next (PDone (JBool false) stack)
  | TNumber n => Next (PDone (JNum n) stack)
  | TString s => Next (PDone (JStr s) stack)
  | TLBracket => Next (PFirstElement stack)
  | TLBrace => Next (PFirstKey stack)
  | _ => Bad
  end.

(** A token where a property name must stand. *)
Definition key_step (done : list (string * JSValue)) (stack : list Frame) (t : Token)
  : Step ParseState :=
  match t with
  | TString k => if numeric_key k then Beyond else Next (PColon done k stack)
  | _ => Bad
  end.

Definition parse_step (st : ParseState) (t : Token) : Step ParseState :=
  match st with
  | PValue stack => value_start stack t
  | PFirstElement stack =>
      match t with
      | TRBracket => Next (PDone (JArr []) stack)
      | _ => value_start (InArray [] :: stack) t
      end
  | PFirstKey stack =>
      match t with
      | TRBrace => Next (PDone (JObj []) stack)
      | _ => key_step [] stack t
      end
  | PKey done stack => key_step done stack t
  | PColon done k stack =>
      match t with
      | TColon => Next (PValue (InObject done k :: stack))
      | _ => Bad
      end
  | PDone v [] => Bad
  | PDone v (InArray done :: stack) =>
      match t with
      | TComma => Next (PValue (InArray (done ++ [v]) :: stack))
      | TRBracket => Next (PDone (JArr (done ++ [v])) stack)
      | _ => Bad
      end
  | PDone v (InObject done k :: stack) =>
      match t with
      | TComma => Next (PKey (define k v done) stack)
      | TRBrace => Next (PDone (JObj (define k v done)) stack)
      | _ => Bad
      end
  end.

Fixpoint parse_tokens (st : ParseState) (tokens : list Token) : Settled JSValue :=
  match tokens with
  | [] => match st with
          | PDone v [] => Fulfilled v
          | _ => Rejected syntax_error
          end
  | t :: rest =>
      match parse_step st t with
      | Next st' => parse_tokens st' rest
      | Bad => Rejected syntax_error
      | Beyond => Undetermined
      end
  end.

(** How [JSON.parse(text)] ends, with no reviver: with the value, with
    the [SyntaxError], or outside the fragment. *)
Definition parse_result (text : string) : Settled JSValue :=
  match lex LStart text with
  | Fulfilled tokens => parse_tokens (PValue []) tokens
  | Rejected e => Rejected e
  | Undetermined => Undetermined
  end.

(** The value [JSON.parse(text)] returns, where the model knows that it
    returns one. *)
Definition parse (text : string) : option JSValue :=
  match parse_result text with
  | Fulfilled v => Some v
  | _ => None
  end.

(** *** The token stream of a value

    What the lexer makes of [serialise v], written down directly; the
    facts below go from the text to the tokens and from the tokens to
    the value. *)

Definition separate (parts : list (list Token)) : list Token :=
  match parts with
  | [] => []
  | p :: ps => p ++ concat (map (cons TComma) ps)
  end.

Fixpoint tokens (v : JSValue) : list Token :=
  match v with
  | JNull => [TNull]
  | JBool true => [TTrue]
  | JBool false => [TFalse]
  | JNum n => [TNumber n]
  | JStr s => [TString s]
  | JArr elements => TLBracket :: separate (map tokens elements) ++ [TRBracket]
  | JObj properties =>
      TLBrace :: separate (map (fun p => match p with
                                         | (k, x) => TString k :: TColon :: tokens x
                                         end) properties) ++ [TRBrace]
  end.

Definition member_tokens (p : string * JSValue) : list Token :=
  match p with
  | (k, x) => TString k :: TColon :: tokens x
  end.

(** A string of ASCII characters only. *)
Fixpoint ascii_string (s : string) : bool :=
  match s with
  | EmptyString => true
  | String c rest => is_ascii c && ascii_string rest
  end.

(** The values the parser gives back as they were serialised: every
    string and property name is ASCII, and no object, at any depth, has
    the same name twice or a name made of digits. *)
Fixpoint well_formed (v : JSValue) : Prop :=
  match v with
  | JStr s => ascii_string s = true
  | JArr elements => fold_right (fun e rest => well_formed e /\ rest) True elements
  | JObj properties =>
      NoDup (map fst properties) /\
      fold_right (fun p rest => match p with
                                | (k, x) =>
                                    (ascii_string k = true /\ numeric_key k = false /\
                                     well_formed x) /\ rest
                                end) True properties
  | _ => True
  end.

(** A text that cannot continue a number: it is empty or starts with an
    ASCII character that is neither a digit, nor a point, nor an
    exponent mark. *)
Definition delimited (rest : string) : Prop :=
  match rest with
  | EmptyString => True
  | String c _ =>
      is_ascii c = true /\ digit_value c = None /\ continues_number c = false
  end.

(** A part of a text with the tokens it is lexed to, whatever follows. *)
Definition lexes_to (part : string) (ts : list Token) : Prop :=
  forall rest : string,
    delimited rest ->
    lex LStart (part ++ rest) = map_settled (app ts) (lex LStart rest).

(** Reading a value from its tokens, in any context. *)
Definition parses (v : JSValue) : Prop :=
  forall (stack : list Frame) (rest : list Token),
    parse_tokens (PValue stack) (tokens v ++ rest) = parse_tokens (PDone v stack) rest.

End JSON.

(** ** The Fetch API, as far as the client uses it *)

(** The second argument of [fetch] as the source writes it: the three
    members [method], [headers] and [body]. *)
Record RequestInit : Type := {
  method : string;
  headers : list (string * string);
  body : string
}.

(** The request [fetch(input, init)] sends.  With no [init] the method is
    GET and the request has neither headers of the caller's nor a body. *)
Record Request : Type := {
  req_url : string;
  req_method : string;
  req_headers : list (string * string);
  req_body : option string
}.

Definition new_request (input : string) (init : option RequestInit) : Request :=
  match init with
  | None =>
      {| req_url := input; req_method := "GET"; req_headers := []; req_body := None |}
  | Some i =>
      {| req_url := input; req_method := method i;
         req_headers := headers i; req_body := Some (body i) |}
  end.

(** A response: its status code and the text of its body, not yet read. *)
Record Response : Type := {
  status : Z;
  text : string
}.

(** [response.ok]: the status is in the range 200-299. *)
Definition ok (response : Response) : bool :=
  (200 <=? status response) && (status response <=? 299).

(** The transport and the backend behind it: how the promise of [fetch]
    settles for each request.  [Rejected] is a network-level failure; an
    HTTP error status is a [Fulfilled] response. *)
Definition Network : Type := Request -> Settled Response.

(** What a call did on the network, in order. *)
Inductive Event : Type :=
| Fetched (request : Request)       (* one call of [fetch] *)
| BodyRead (response : Response).   (* the body of a response consumed *)

Definition Log : Type := list Event.

(** An asynchronous computation: given the network and the log so far it
    settles and leaves the log extended.  The log survives a rejection. *)
Definition Async (A : Type) : Type := Network -> Log -> Settled A * Log.

Definition ret {A : Type} (a : A) : Async A :=
  fun _ log => (Fulfilled a, log).

(** [throw e] inside an [async] function rejects its promise. *)
Definition throw {A : Type} (e : JSError) : Async A :=
  fun _ log => (Rejected e, log).

(** [const x = await c; k]: when [c] does not yield a value, [k] is not
    run. *)
Definition bind {A B : Type} (c : Async A) (k : A -> Async B) : Async B :=
  fun net log =>
    match c net log with
    | (Fulfilled a, log') => k a net log'
    | (Rejected e, log') => (Rejected e, log')
    | (Undetermined, log') => (Undetermined, log')
    end.

(** An expression evaluated in the course of a call: its value, or the
    error it throws, with no effect on the network. *)
Definition eval {A : Type} (s : Settled A) : Async A :=
  fun _ log => (s, log).

Declare Scope async_scope.
Delimit Scope async_scope with async.
Notation "x <- c ;; k" := (bind c (fun x => k))
  (at level 61, c at next level, right associativity) : async_scope.

(** [fetch(input, init)]. *)
Definition fetch (input : string) (init : option RequestInit) : Async Response :=
  fun net log =>
    let request := new_request input init in
    (net request, (log ++ [Fetched request])%list).

(** [response.json()]: read the body to its end and parse it; the
    promise settles as the parse ends. *)
Definition json (response : Response) : Async JSValue :=
  fun _ log =>
    (JSON.parse_result (text response), (log ++ [BodyRead response])%list).

(** Running a call from an empty log. *)
Definition run {A : Type} (c : Async A) (net : Network) : Settled A * Log :=
  c net [].

Definition outcome {A : Type} (c : Async A) (net : Network) : Settled A :=
  fst (run c net).

Definition log_of {A : Type} (c : Async A) (net : Network) : Log :=
  snd (run c net).

(** The requests of a log, in order. *)
Fixpoint requests (log : Log) : list Request :=
  match log with
  | [] => []
  | Fetched r :: rest => r :: requests rest
  | BodyRead _ :: rest => requests rest
  end.

(** The responses whose body was read, in order. *)
Fixpoint bodies_read (log : Log) : list Response :=
  match log with
  | [] => []
  | Fetched _ :: rest => bodies_read rest
  | BodyRead r :: rest => r :: bodies_read rest
  end.

Definition issued {A : Type} (c : Async A) (net : Network) : list Request :=
  requests (log_of c net).


(** ** The client: [src/api.js] *)

Definition BASE_URL : string := "http://localhost:8000".

Local Open Scope async_scope.

(** Function to fetch columns for a specific entity. *)
Definition fetchEntityColumns (entity : JSValue) : Async JSValue :=
  (url <- eval (template [Lit BASE_URL; Lit "/"; Sub entity; Lit "/columns"]) ;;
   response <- fetch url None ;;
   if negb (ok response) then
     (message <- eval (template [Lit "Failed to fetch "; Sub entity; Lit " columns"]) ;;
      throw (Error message))
   else
     json response)%async.

(** Fetch records based on a particular column's value. *)
Definition searchRecords (entity column value : JSValue) : Async JSValue :=
  (url <- eval (template [Lit BASE_URL; Lit "/search?entity="; Sub entity;
                          Lit "&column="; Sub column; Lit "&value="; Sub value]) ;;
   response <- fetch url None ;;
   if negb (ok response) then
     throw (Error "Failed to search records")
   else
     json response)%async.

(** Sort by a particular column and order. *)
Definition sortRecords (entity column order : JSValue) : Async JSValue :=
  (url <- eval (template [Lit BASE_URL; Lit "/sort?entity="; Sub entity;
                          Lit "&column="; Sub column; Lit "&order="; Sub order]) ;;
   response <- fetch url None ;;
   if negb (ok response) then
     throw (Error "Failed to sort records")
   else
     json response)%async.

(** Select all records in the table. *)
Definition selectAllRecords (entity : JSValue) : Async JSValue :=
  (url <- eval (template [Lit BASE_URL; Lit "/all?entity="; Sub entity]) ;;
   response <- fetch url None ;;
   if negb (ok response) then
     throw (Error "Failed to fetch all records")
   else
     json response)%async.

(** *** Student endpoints *)

Definition insertStudent (student : JSValue) : Async JSValue :=
  (url <- eval (template [Lit BASE_URL; Lit "/students"]) ;;
   response <- fetch url
                 (Some {| method := "POST";
                          headers := [("Content-Type", "application/json")];
                          body := JSON.stringify student |}) ;;
   if negb (ok response) then
     throw (Error "Failed to insert student")
   else
     json response)%async.

Definition deleteStudents (studentIds : JSValue) : Async JSValue :=
  (url <- eval (template [Lit BASE_URL; Lit "/students"]) ;;
   response <- fetch url
                 (Some {| method := "DELETE";
                          headers := [("Content-Type", "application/json")];
                          body := JSON.stringify studentIds |}) ;;
   if negb (ok response) then
     throw (Error "Failed to delete students")
   else
     json response)%async.

Definition updateStudent (studentId student : JSValue) : Async JSValue :=
  (url <- eval (template [Lit BASE_URL; Lit "/students/"; Sub studentId]) ;;
   response <- fetch url
                 (Some {| method := "PUT";
                          headers := [("Content-Type", "application/json")];
                          body := JSON.stringify student |}) ;;
   if negb (ok response) then
     throw (Error "Failed to update student")
   else
     json response)%async.

(** *** Mentor endpoints *)

Definition insertMentor (mentor : JSValue) : Async JSValue :=
  (url <- eval (template [Lit BASE_URL; Lit "/mentors"]) ;;
   response <- fetch url
                 (Some {| method := "POST";
                          headers := [("Content-Type", "application/json")];
                          body := JSON.stringify mentor |}) ;;
   if negb (ok response) then
     throw (Error "Failed to insert mentor")
   else
     json response)%async.

Definition updateMentor (mentorId mentor : JSValue) : Async JSValue :=
  (url <- eval (template [Lit BASE_URL; Lit "/mentors/"; Sub mentorId]) ;;
   response <- fetch url
                 (Some {| method := "PUT";
                          headers := [("Content-Type", "application/json")];
                          body := JSON.stringify mentor |}) ;;
   if negb (ok response) then
     throw (Error "Failed to update mentor")
   else
     json response)%async.

Definition deleteMentors (mentorIds : JSValue) : Async JSValue :=
  (url <- eval (template [Lit BASE_URL; Lit "/mentors"]) ;;
   response <- fetch url
                 (Some {| method := "DELETE";
                          headers := [("Content-Type", "application/json")];
                          body := JSON.stringify mentorIds |}) ;;
   if negb (ok response) then
     throw (Error "Failed to delete mentors")
   else
     json response)%async.

(** *** Project endpoints *)

Definition insertProject (project : JSValue) : Async JSValue :=
  (url <- eval (template [Lit BASE_URL; Lit "/projects"]) ;;
   response <- fetch url
                 (Some {| method := "POST";
                          headers := [("Content-Type", "application/json")];
                          body := JSON.stringify project |}) ;;
   if negb (ok response) then
     throw (Error "Failed to insert project")
   else
     json response)%async.

Definition updateProject (projectId project : JSValue) : Async JSValue :=
  (url <- eval (template [Lit BASE_URL; Lit "/projects/"; Sub projectId]) ;;
   response <- fetch url
                 (Some {| method := "PUT";
                          headers := [("Content-Type", "application/json")];
                          body := JSON.stringify project |}) ;;
   if negb (ok response) then
     throw (Error "Failed to update project")
   else
     json response)%async.

Definition deleteProjects (projectIds : JSValue) : Async JSValue :=
  (url <- eval (template [Lit BASE_URL; Lit "/projects"]) ;;
   response <- fetch url
                 (Some {| method := "DELETE";
                          headers := [("Content-Type", "application/json")];
                          body := JSON.stringify projectIds |}) ;;
   if negb (ok response) then
     throw (Error "Failed to delete projects")
   else
     json response)%async.

(** ** Every exposed operation at once *)

(** The thirteen exports. *)
Inductive Operation : Type :=
| FetchEntityColumns | SearchRecords | SortRecords | SelectAllRecords
| InsertStudent | DeleteStudents | UpdateStudent
| InsertMentor | UpdateMentor | DeleteMentors
| InsertProject | UpdateProject | DeleteProjects.

(** One invocation of an export: the operation with its arguments. *)
Inductive Call : Type :=
| CallFetchEntityColumns (entity : JSValue)
| CallSearchRecords (entity column value : JSValue)
| CallSortRecords (entity column order : JSValue)
| CallSelectAllRecords (entity : JSValue)
| CallInsertStudent (student : JSValue)
| CallDeleteStudents (studentIds : JSValue)
| CallUpdateStudent (studentId student : JSValue)
| CallInsertMentor (mentor : JSValue)
| CallUpdateMentor (mentorId mentor : JSValue)
| CallDeleteMentors (mentorIds : JSValue)
| CallInsertProject (project : JSValue)
| CallUpdateProject (projectId project : JSValue)
| CallDeleteProjects (projectIds : JSValue).

Definition operation_of (c : Call) : Operation :=
  match c with
  | CallFetchEntityColumns _ => FetchEntityColumns
  | CallSearchRecords _ _ _ => SearchRecords
  | CallSortRecords _ _ _ => SortRecords
  | CallSelectAllRecords _ => SelectAllRecords
  | CallInsertStudent _ => InsertStudent
  | CallDeleteStudents _ => DeleteStudents
  | CallUpdateStudent _ _ => UpdateStudent
  | CallInsertMentor _ => InsertMentor
  | CallUpdateMentor _ _ => UpdateMentor
  | CallDeleteMentors _ => DeleteMentors
  | CallInsertProject _ => InsertProject
  | CallUpdateProject _ _ => UpdateProject
  | CallDeleteProjects _ => DeleteProjects
  end.

Definition invoke (c : Call) : Async JSValue :=
  match c with
  | CallFetchEntityColumns entity => fetchEntityColumns entity
  | CallSearchRecords entity column value => searchRecords entity column value
  | CallSortRecords entity column order => sortRecords entity column order
  | CallSelectAllRecords entity => selectAllRecords entity
  | CallInsertStudent student => insertStudent student
  | CallDeleteStudents studentIds => deleteStudents studentIds
  | CallUpdateStudent studentId student => updateStudent studentId student
  | CallInsertMentor mentor => insertMentor mentor
  | CallUpdateMentor mentorId mentor => updateMentor mentorId mentor
  | CallDeleteMentors mentorIds => deleteMentors mentorIds
  | CallInsertProject project => insertProject project
  | CallUpdateProject projectId project => updateProject projectId project
  | CallDeleteProjects projectIds => deleteProjects projectIds
  end.

(** The three entities with their own endpoints and the three operations
    each of them has. *)
Inductive Entity : Type := Students | Mentors | Projects.
Inductive Mutation : Type := Insert | Update | Delete.

(** The call of operation [o] on entity [e]: [payload] is the record, or
    the identifier list of a delete; only an update takes [id]. *)
Definition mutation (e : Entity) (o : Mutation) (id payload : JSValue) : Call :=
  match e, o with
  | Students, Insert => CallInsertStudent payload
  | Students, Update => CallUpdateStudent id payload
  | Students, Delete => CallDeleteStudents payload
  | Mentors, Insert => CallInsertMentor payload
  | Mentors, Update => CallUpdateMentor id payload
  | Mentors, Delete => CallDeleteMentors payload
  | Projects, Insert => CallInsertProject payload
  | Projects, Update => CallUpdateProject id payload
  | Projects, Delete => CallDeleteProjects payload
  end.

(** The arguments a call splices into its URL, in the order of the
    template literal. *)
Definition interpolated (c : Call) : list JSValue :=
  match c with
  | CallFetchEntityColumns entity => [entity]
  | CallSearchRecords entity column value => [entity; column; value]
  | CallSortRecords entity column order => [entity; column; order]
  | CallSelectAllRecords entity => [entity]
  | CallInsertStudent _ => []
  | CallDeleteStudents _ => []
  | CallUpdateStudent studentId _ => [studentId]
  | CallInsertMentor _ => []
  | CallUpdateMentor mentorId _ => [mentorId]
  | CallDeleteMentors _ => []
  | CallInsertProject _ => []
  | CallUpdateProject projectId _ => [projectId]
  | CallDeleteProjects _ => []
  end.

(** A value a template literal can convert to a string. *)
Definition printable (v : JSValue) : bool :=
  match ToString v with
  | Fulfilled _ => true
  | _ => false
  end.

(** A call whose URL can be built: every argument spliced into it
    converts to a string. *)
Definition convertible (c : Call) : bool := forallb printable (interpolated c).

(** The string a printable value converts to. *)
Definition rendering (v : JSValue) : string :=
  match ToString v with
  | Fulfilled s => s
  | _ => ""
  end.

(** The message of the [Error] each function throws on a status that is
    not ok: a literal of the source, but for [fetchEntityColumns], whose
    template literal embeds the entity. *)
Definition failure_message (c : Call) : string :=
  match c with
  | CallFetchEntityColumns entity => "Failed to fetch " ++ rendering entity ++ " columns"
  | CallSearchRecords _ _ _ => "Failed to search records"
  | CallSortRecords _ _ _ => "Failed to sort records"
  | CallSelectAllRecords _ => "Failed to fetch all records"
  | CallInsertStudent _ => "Failed to insert student"
  | CallDeleteStudents _ => "Failed to delete students"
  | CallUpdateStudent _ _ => "Failed to update student"
  | CallInsertMentor _ => "Failed to insert mentor"
  | CallUpdateMentor _ _ => "Failed to update mentor"
  | CallDeleteMentors _ => "Failed to delete mentors"
  | CallInsertProject _ => "Failed to insert project"
  | CallUpdateProject _ _ => "Failed to update project"
  | CallDeleteProjects _ => "Failed to delete projects"
  end.

(** How a call that sent [request] ends, by the answer of the network. *)
Definition ends_with (c : Call) (net : Network) (request : Request)
  : Settled JSValue * Log :=
  match net request with
  | Fulfilled response =>
      if ok response
      then (JSON.parse_result (text response), [Fetched request; BodyRead response])
      else (Rejected (Error (failure_message c)), [Fetched request])
  | Rejected e => (Rejected e, [Fetched request])
  | Undetermined => (Undetermined, [Fetched request])
  end.

(** ** Stand-ins for the backend *)

(** A mock backend that answers every request with the same response. *)
Definition always_responds (response : Response) : Network :=
  fun _ => Fulfilled response.

(** A transport that cannot reach the backend. *)
Definition network_down : Network :=
  fun _ => Rejected (TypeError "Failed to fetch").

(** A string literal between double quotes, as it appears in JSON text. *)
Definition quoted (s : string) : string := String DQ (s ++ String DQ "").

(** The query of a URL: what follows its first question mark. *)
Fixpoint query_string (url : string) : string :=
  match url with
  | EmptyString => ""
  | String c rest => if Ascii.eqb c "?" then rest else query_string rest
  end.

(** The reading of "one failure kind per operation, whatever the
    arguments and whatever went wrong": two rejected calls of the same
    operation carry the same error. *)
Definition failures_uniform : Prop :=
  forall (c1 c2 : Call) (net1 net2 : Network) (e1 e2 : JSError),
    operation_of c1 = operation_of c2 ->
    outcome (invoke c1) net1 = Rejected e1 ->
    outcome (invoke c2) net2 = Rejected e2 ->
    e1 = e2.

(** The URLs a call fetched. *)
Definition urls {A : Type} (c : Async A) (net : Network) : list string :=
  map req_url (issued c net).

(** ** Sample calls, requests and responses *)

(** A delete that the backend answers with a server error. *)
Definition delete_mentors_4 : Call := CallDeleteMentors (JArr [JNum 4]).

Definition delete_mentors_4_request : Request :=
  {| req_url := "http://localhost:8000/mentors";
     req_method := "DELETE";
     req_headers := [("Content-Type", "application/json")];
     req_body := Some "[4]" |}.

Definition server_error : Response :=
  {| status := 500; text := "Internal Server Error" |}.

Definition delete_projects_3_5 : Call :=
  mutation Projects Delete JNull (JArr [JNum 3; JNum 5]).

Definition delete_projects_3_5_request : Request :=
  {| req_url := "http://localhost:8000/projects";
     req_method := "DELETE";
     req_headers := [("Content-Type", "application/json")];
     req_body := Some "[3,5]" |}.

Definition deleted_response : Response :=
  {| status := 200; text := "{ " ++ quoted "deleted" ++ ": 2 }" |}.

Definition deleted : JSValue := JObj [("deleted", JNum 2)].

Definition html_response : Response :=
  {| status := 200; text := "<html>Bad gateway</html>" |}.

Definition not_found : Response := {| status := 404; text := "Not Found" |}.

Definition update_student_1 : Call := CallUpdateStudent (JNum 1) (JObj [("year", JNum 2)]).
Definition update_student_9 : Call := CallUpdateStudent (JStr "9") (JObj []).

Definition update_student_1_request : Request :=
  {| req_url := "http://localhost:8000/students/1";
     req_method := "PUT";
     req_headers := [("Content-Type", "application/json")];
     req_body := Some ("{" ++ quoted "year" ++ ":2}") |}.

Definition update_student_9_request : Request :=
  {| req_url := "http://localhost:8000/students/9";
     req_method := "PUT";
     req_headers := [("Content-Type", "application/json")];
     req_body := Some "{}" |}.

Definition students_columns_request : Request :=
  {| req_url := "http://localhost:8000/students/columns";
     req_method := "GET";
     req_headers := [];
     req_body := None |}.

Definition columns_response : Response :=
  {| status := 200; text := "[" ++ quoted "id" ++ ", " ++ quoted "name" ++ "]" |}.

Definition update_mentor_7_request : Request :=
  {| req_url := "http://localhost:8000/mentors/7";
     req_method := "PUT";
     req_headers := [("Content-Type", "application/json")];
     req_body := Some ("{" ++ quoted "name" ++ ":" ++ quoted "Alice" ++ "}") |}.

Definition alice_response : Response :=
  {| status := 200;
     text := "{" ++ quoted "id" ++ ":7," ++ quoted "name" ++ ":" ++ quoted "Alice" ++ "}" |}.

Definition alice : JSValue := JObj [("id", JNum 7); ("name", JStr "Alice")].

(** ** Notions for the further properties *)

(** The HTTP method each kind of write is sent with. *)
Definition http_method (o : Mutation) : string :=
  match o with
  | Insert => "POST"
  | Update => "PUT"
  | Delete => "DELETE"
  end.

(** The four generic operations, which only read. *)
Definition is_read (c : Call) : bool :=
  match operation_of c with
  | FetchEntityColumns | SearchRecords | SortRecords | SelectAllRecords => true
  | _ => false
  end.

(** A text of JSON whitespace only, the empty text included. *)
Fixpoint blank (s : string) : bool :=
  match s with
  | EmptyString => true
  | String c rest => JSON.is_whitespace c && blank rest
  end.

(** [starts_with p s]: the string [s] begins with [p]. *)
Fixpoint starts_with (p s : string) : bool :=
  match p, s with
  | EmptyString, _ => true
  | String a p', String b s' => Ascii.eqb a b && starts_with p' s'
  | String _ _, EmptyString => false
  end.

(** A string with no ampersand in it. *)
Fixpoint no_ampersand (s : string) : bool :=
  match s with
  | EmptyString => true
  | String c rest => negb (Ascii.eqb c "&") && no_ampersand rest
  end.

(** A backend that answers every request with status 200 and the body
    of the request as the body of the response. *)
Definition echo : Network :=
  fun request =>
    Fulfilled {| status := 200;
                 text := match req_body request with
                         | Some b => b
                         | None => ""
                         end |}.

Definition no_content : Response := {| status := 204; text := "" |}.

Definition created_response : Response :=
  {| status := 201; text := JSON.stringify alice |}.

Definition update_mentor_7 : Call :=
  CallUpdateMentor (JNum 7) (JObj [("name", JStr "Alice")]).

Definition insert_student_ada : Call :=
  mutation Students Insert JNull
    (JObj [("name", JStr "Ada"); ("marks", JArr [JNum 9; JNum (-1); JNull]); ("active", JBool true)]).

Definition search_by_grade_request : Request :=
  {| req_url := "http://localhost:8000/search?entity=students&column=grade&value=A&B";
     req_method := "GET";
     req_headers := [];
     req_body := None |}.



(** ** Proof automation *)

Create HintDb api.
#[local] Hint Unfold fetchEntityColumns searchRecords sortRecords selectAllRecords
  insertStudent deleteStudents updateStudent
  insertMentor updateMentor deleteMentors
  insertProject updateProject deleteProjects : api.

(** * Facts about JSON

    [JSON.parse] undoes [JSON.stringify]: a backend that serialises a
    value [B] into the body of its response hands the client a text that
    parses to [B]. *)

Module JSONFacts.
Import JSON.

Lemma append_assoc (s1 s2 s3 : string) : (s1 ++ s2) ++ s3 = s1 ++ (s2 ++ s3).
Proof. induction s1 as [ | c s1 IH]; simpl; [ | rewrite IH]; reflexivity. Qed.

Lemma append_nil_r (s : string) : s ++ "" = s.
Proof. induction s as [ | c s IH]; simpl; [ | rewrite IH]; reflexivity. Qed.

Lemma map_settled_app_nil {A : Type} (x : Settled (list A)) :
  map_settled (app []) x = x.
Proof. destruct x; reflexivity. Qed.

Lemma map_settled_app_app {A : Type} (l1 l2 : list A) (x : Settled (list A)) :
  map_settled (app l1) (map_settled (app l2) x) = map_settled (app (l1 ++ l2)) x.
Proof. destruct x; simpl; [rewrite List.app_assoc | | ]; reflexivity. Qed.

(** A safe integer is read back from its value. *)
Lemma to_safe_value (n : SafeInt) : to_safe (int_value n) = Some n.
Proof.
  destruct n as [z Hz]. unfold to_safe. cbn [int_value].
  generalize (eq_refl (safe_integer z)).
  generalize (safe_integer z) at 2 3.
  intros b Hb. destruct b.
  - do 2 f_equal. apply UIP_dec, bool_dec.
  - congruence.
Qed.

Lemma lex_cons (m : LexMode) (c : ascii) (rest : string) :
  lex m (String c rest) =
    match lex_step m c with
    | Next (m', out) => map_settled (app out) (lex m' rest)
    | Bad => Rejected syntax_error
    | Beyond => Undetermined
    end.
Proof. reflexivity. Qed.

(** Runs the lexer over the next character of the text, which must be a
    literal one. *)
Ltac lex_one :=
  rewrite lex_cons;
  match goal with
  | |- context [lex_step ?m ?x] =>
      let r := eval cbv -[snoc String.append] in (lex_step m x) in
      change (lex_step m x) with r
  end;
  cbv beta iota.

(** One escaped character is read back as the character. *)
Lemma lex_escape_char (c : ascii) (acc rest : string) :
  is_ascii c = true ->
  lex (LString acc) (escape_char c ++ rest) = lex (LString (snoc acc c)) rest.
Proof.
  destruct c as [b0 b1 b2 b3 b4 b5 b6 [ | ]]; [intros H; discriminate H | intros _].
  destruct b0, b1, b2, b3, b4, b5, b6;
    match goal with
    | |- context [escape_char ?x] =>
        let r := eval vm_compute in (escape_char x) in
        change (escape_char x) with r
    end;
    cbn [String.append];
    repeat lex_one; rewrite ?map_settled_app_nil; reflexivity.
Qed.

(** An escaped string is read back as the string. *)
Lemma lex_escape (s acc rest : string) :
  ascii_string s = true ->
  lex (LString acc) (escape s ++ rest) = lex (LString (acc ++ s)) rest.
Proof.
  revert acc. induction s as [ | c s IH]; intros acc Hs.
  - simpl. rewrite append_nil_r. reflexivity.
  - simpl in Hs. apply andb_true_iff in Hs. destruct Hs as [Hc Hs].
    simpl escape. rewrite append_assoc, (lex_escape_char _ _ _ Hc), (IH _ Hs).
    unfold snoc. rewrite append_assoc. reflexivity.
Qed.

(** A quoted string is one string token. *)
Lemma lex_quote (s rest : string) :
  ascii_string s = true ->
  lex LStart (quote s ++ rest) = map_settled (app [TString s]) (lex LStart rest).
Proof.
  intros Hs. unfold quote. cbn [String.append]. rewrite append_assoc. cbn [String.append].
  lex_one. rewrite map_settled_app_nil, (lex_escape _ _ _ Hs). cbn [String.append].
  lex_one. reflexivity.
Qed.

Lemma lex_start (c : ascii) (rest : string) :
  is_ascii c = true ->
  lex LStart (String c rest) =
    match start_step c with
    | Next (m', out) => map_settled (app out) (lex m' rest)
    | Bad => Rejected syntax_error
    | Beyond => Undetermined
    end.
Proof. intros Hc. rewrite lex_cons. unfold lex_step. rewrite Hc. reflexivity. Qed.

(** A number ends where the text is delimited. *)
Lemma lex_number_end (neg : bool) (acc : Z) (k : SafeInt) (rest : string) :
  delimited rest ->
  to_safe (signed neg acc) = Some k ->
  lex (LDigits neg acc) rest = map_settled (app [TNumber k]) (lex LStart rest).
Proof.
  destruct rest as [ | c rest]; intros Hrest Hk.
  - simpl. rewrite Hk. reflexivity.
  - destruct Hrest as (Hascii & Hdigit & Hcont).
    rewrite (lex_start _ _ Hascii), lex_cons. unfold lex_step.
    rewrite Hascii. cbn [negb]. rewrite Hdigit. unfold after_number.
    rewrite Hcont, Hk.
    destruct (start_step c) as [[m out] | | ]; [ | reflexivity | reflexivity].
    rewrite map_settled_app_app. reflexivity.
Qed.

Lemma lex_zero_end (rest : string) :
  delimited rest ->
  lex LZero rest = map_settled (app [TNumber 0]) (lex LStart rest).
Proof.
  destruct rest as [ | c rest]; intros Hrest; [reflexivity | ].
  destruct Hrest as (Hascii & Hdigit & Hcont).
  rewrite (lex_start _ _ Hascii), lex_cons. unfold lex_step.
  rewrite Hascii. cbn [negb]. rewrite Hdigit. unfold after_number.
  rewrite Hcont. change (to_safe 0) with (Some 0%safe).
  destruct (start_step c) as [[m out] | | ]; [ | reflexivity | reflexivity].
  rewrite map_settled_app_app. reflexivity.
Qed.

(** The digits of a decimal, read with [p] already accumulated. *)
Lemma lex_digits (neg : bool) (d : Decimal.uint) (p : positive) (rest : string) :
  lex (LDigits neg (Z.pos p)) (NilEmpty.string_of_uint d ++ rest)
  = lex (LDigits neg (Z.pos (Pos.of_uint_acc d p))) rest.
Proof.
  revert p. induction d as [ | d IH | d IH | d IH | d IH | d IH | d IH | d IH | d IH | d IH | d IH];
    intros p; [reflexivity | .. ];
    cbn [NilEmpty.string_of_uint String.append Pos.of_uint_acc];
    rewrite lex_cons; cbn [lex_step is_ascii negb];
    match goal with
    | |- context [digit_value ?c] =>
        let r := eval vm_compute in (digit_value c) in
        change (digit_value c) with r
    end;
    cbv beta iota; rewrite map_settled_app_nil, <- IH;
    do 2 f_equal; lia.
Qed.

(** The decimal of a positive number does not start with a zero. *)
Lemma to_uint_head (p : positive) :
  forall d, Pos.to_uint p <> Decimal.D0 d.
Proof.
  intros d Hd.
  pose proof (Unsigned.to_of (Pos.to_uint p)) as Hnorm.
  rewrite Unsigned.of_to in Hnorm. simpl in Hnorm.
  rewrite Hd in Hnorm. rewrite unorm_D0 in Hnorm.
  unfold Decimal.unorm in Hnorm.
  destruct (Decimal.nzhead d) eqn:Hhead; try discriminate Hnorm.
  - injection Hnorm as Hzero. subst d. apply (Unsigned.to_uint_nonzero p Hd).
  - apply (nzhead_nonzero d _ Hhead).
Qed.

Lemma lex_positive (neg : bool) (p : positive) (k : SafeInt) (rest : string) :
  delimited rest ->
  to_safe (signed neg (Z.pos p)) = Some k ->
  lex (if neg then LMinus else LStart) (NilZero.string_of_uint (Pos.to_uint p) ++ rest)
  = map_settled (app [TNumber k]) (lex LStart rest).
Proof.
  intros Hrest Hk.
  pose proof (Unsigned.of_to p) as Hof.
  destruct (Pos.to_uint p) as [ | d | d | d | d | d | d | d | d | d | d ] eqn:Hdigits;
    [ contradiction (Unsigned.to_uint_nonnil p Hdigits)
    | contradiction (to_uint_head p d Hdigits)
    | .. ];
    cbn [NilZero.string_of_uint NilEmpty.string_of_uint String.append];
    cbn [Pos.of_uint] in Hof; injection Hof as Hof;
    destruct neg; lex_one; rewrite map_settled_app_nil, lex_digits, Hof;
    apply (lex_number_end _ _ _ _ Hrest Hk).
Qed.

(** The decimal of a safe integer is one number token, the integer. *)
Lemma lex_number (n : SafeInt) (rest : string) :
  delimited rest ->
  lex LStart (number_to_string n ++ rest) = map_settled (app [TNumber n]) (lex LStart rest).
Proof.
  intros Hrest. pose proof (to_safe_value n) as Hn. unfold number_to_string.
  destruct (int_value n) as [ | p | p]; cbn [Z.to_int NilZero.string_of_int].
  - cbn [NilZero.string_of_uint NilEmpty.string_of_uint String.append].
    lex_one. rewrite map_settled_app_nil, (lex_zero_end _ Hrest).
    change (to_safe 0) with (Some 0%safe) in Hn. injection Hn as <-. reflexivity.
  - apply (lex_positive false p n rest Hrest Hn).
  - cbn [String.append]. lex_one. rewrite map_settled_app_nil.
    apply (lex_positive true p n rest Hrest Hn).
Qed.

Lemma lexes_to_char (c : ascii) (t : Token) (part : string) (ts : list Token) :
  is_ascii c = true ->
  start_step c = Next (LStart, [t]) ->
  lexes_to part ts ->
  lexes_to (String c part) (t :: ts).
Proof.
  intros Hascii Hc Hpart rest Hrest. cbn [String.append].
  rewrite (lex_start _ _ Hascii), Hc, (Hpart rest Hrest), map_settled_app_app.
  reflexivity.
Qed.

Lemma lexes_to_nil : lexes_to "" [].
Proof. intros rest _. simpl. symmetry. apply map_settled_app_nil. Qed.

Lemma lexes_to_app (p1 p2 : string) (t1 t2 : list Token) :
  lexes_to p1 t1 ->
  (forall rest, delimited rest -> delimited (p2 ++ rest)) ->
  lexes_to p2 t2 ->
  lexes_to (p1 ++ p2) (t1 ++ t2)%list.
Proof.
  intros H1 Hdelim H2 rest Hrest.
  rewrite append_assoc, (H1 _ (Hdelim rest Hrest)), (H2 rest Hrest), map_settled_app_app.
  reflexivity.
Qed.

(** Parts joined with commas are lexed to their tokens separated by
    comma tokens. *)
Lemma lexes_to_join (parts : list (string * list Token)) :
  Forall (fun p => lexes_to (fst p) (snd p)) parts ->
  lexes_to (join "," (map fst parts)) (separate (map snd parts)).
Proof.
  destruct parts as [ | p ps]; [intros _; apply lexes_to_nil | ].
  revert p. induction ps as [ | q ps IH]; intros p Hall.
  - simpl. rewrite List.app_nil_r. apply (Forall_inv Hall).
  - change (join "," (map fst (p :: q :: ps)))
      with (fst p ++ String "," (join "," (map fst (q :: ps)))).
    change (separate (map snd (p :: q :: ps)))
      with (snd p ++ TComma :: separate (map snd (q :: ps)))%list.
    apply lexes_to_app.
    + apply (Forall_inv Hall).
    + intros rest _. repeat split.
    + apply lexes_to_char; [reflexivity | reflexivity | ].
      apply IH, (Forall_inv_tail Hall).
Qed.

Lemma lexes_to_quote (s : string) :
  ascii_string s = true -> lexes_to (quote s) [TString s].
Proof. intros Hs rest _. apply lex_quote, Hs. Qed.

Lemma well_formed_elements (elements : list JSValue) :
  well_formed (JArr elements) -> Forall well_formed elements.
Proof.
  induction elements as [ | e elements IH]; intros Hwf; constructor.
  - apply Hwf.
  - apply IH, Hwf.
Qed.

Lemma well_formed_properties (properties : list (string * JSValue)) :
  well_formed (JObj properties) ->
  NoDup (map fst properties) /\
  Forall (fun p => ascii_string (fst p) = true /\ numeric_key (fst p) = false /\
                   well_formed (snd p)) properties.
Proof.
  intros [Hkeys Hall]. split; [exact Hkeys | ]. clear Hkeys.
  induction properties as [ | [k x] properties IH]; constructor.
  - apply Hall.
  - apply IH, Hall.
Qed.

(** The text of a value is lexed to the tokens of the value. *)
Lemma lex_stringify (v : JSValue) :
  well_formed v -> lexes_to (serialise v) (tokens v).
Proof.
  induction v as [ | b | n | s | elements IH | properties IH] using JSValue_nested_ind;
    intros Hwf.
  - intros rest _. cbn [serialise tokens String.append].
    repeat lex_one. rewrite ?map_settled_app_nil. reflexivity.
  - intros rest _. destruct b; cbn [serialise tokens String.append];
      repeat lex_one; rewrite ?map_settled_app_nil; reflexivity.
  - intros rest Hrest. apply lex_number, Hrest.
  - apply lexes_to_quote, Hwf.
  - apply well_formed_elements in Hwf.
    cbn [serialise tokens].
    apply (lexes_to_char "[" TLBracket); [reflexivity | reflexivity | ].
    apply lexes_to_app.
    + replace (map serialise elements)
        with (map fst (map (fun e => (serialise e, tokens e)) elements))
        by (rewrite map_map; reflexivity).
      replace (map tokens elements)
        with (map snd (map (fun e => (serialise e, tokens e)) elements))
        by (rewrite map_map; reflexivity).
      apply lexes_to_join. rewrite Forall_map.
      clear -IH Hwf. induction IH as [ | e elements He _ IHall]; constructor.
      * apply He, (Forall_inv Hwf).
      * apply IHall, (Forall_inv_tail Hwf).
    + intros rest _. repeat split.
    + apply (lexes_to_char "]" TRBracket); [reflexivity | reflexivity | apply lexes_to_nil].
  - apply well_formed_properties in Hwf. destruct Hwf as [_ Hwf].
    cbn [serialise tokens].
    apply (lexes_to_char "{" TLBrace); [reflexivity | reflexivity | ].
    apply lexes_to_app.
    + set (text_of := fun p : string * JSValue =>
                        match p with (k, x) => quote k ++ ":" ++ serialise x end).
      set (tokens_of := fun p : string * JSValue =>
                          match p with (k, x) => TString k :: TColon :: tokens x end).
      replace (map text_of properties)
        with (map fst (map (fun p => (text_of p, tokens_of p)) properties))
        by (rewrite map_map; reflexivity).
      replace (map tokens_of properties)
        with (map snd (map (fun p => (text_of p, tokens_of p)) properties))
        by (rewrite map_map; reflexivity).
      apply lexes_to_join. rewrite Forall_map.
      clear -IH Hwf. induction IH as [ | [k x] properties Hx _ IHall]; constructor.
      * destruct (Forall_inv Hwf) as (Hk & _ & Hwx). cbn [fst snd] in *.
        apply (lexes_to_app (quote k) _ [TString k]).
        -- apply lexes_to_quote, Hk.
        -- intros rest _. repeat split.
        -- apply (lexes_to_char ":" TColon); [reflexivity | reflexivity | exact (Hx Hwx)].
      * apply IHall, (Forall_inv_tail Hwf).
    + intros rest _. repeat split.
    + apply (lexes_to_char "}" TRBrace); [reflexivity | reflexivity | apply lexes_to_nil].
Qed.

Lemma digits_are_digits (s : string) (acc n : Z) :
  digits_value s acc = Some n -> all_digits s = true.
Proof.
  revert acc. induction s as [ | c s IH]; intros acc H; [reflexivity | ].
  simpl in *. destruct (digit_value c); [apply (IH _ H) | discriminate H].
Qed.

(** A name that is not made of digits is no array index. *)
Lemma array_index_none (k : string) : numeric_key k = false -> array_index k = None.
Proof.
  destruct k as [ | c k]; [reflexivity | ].
  unfold numeric_key, array_index. intros Hk.
  destruct (Ascii.eqb c "0" && negb (String.eqb k ""))%bool; [reflexivity | ].
  destruct (digits_value (String c k) 0) as [n | ] eqn:Hn; [ | reflexivity].
  rewrite (digits_are_digits _ _ _ Hn) in Hk. discriminate Hk.
Qed.

(** A name not yet present that is no array index is defined last. *)
Lemma define_fresh (k : string) (v : JSValue) (props : list (string * JSValue)) :
  numeric_key k = false ->
  ~ In k (map fst props) -> define k v props = (props ++ [(k, v)])%list.
Proof.
  intros Hk. induction props as [ | [k' v'] props IH]; intros Hfresh; [reflexivity | ].
  simpl in *. destruct (String.eqb_spec k k') as [-> | Hneq].
  - contradiction Hfresh. left; reflexivity.
  - unfold goes_before. rewrite (array_index_none k Hk). cbn [andb].
    rewrite IH; [reflexivity | ]. intros Hin. apply Hfresh. right; exact Hin.
Qed.

(** A well-formed value lists its properties as they are enumerated. *)
Lemma canonical_well_formed (v : JSValue) : well_formed v -> canonical v = v.
Proof.
  induction v as [ | b | n | s | elements IH | properties IH] using JSValue_nested_ind;
    intros Hwf; try reflexivity.
  - apply well_formed_elements in Hwf. cbn [canonical]. f_equal.
    induction IH as [ | e elements He _ IHall]; [reflexivity | ].
    cbn [map]. rewrite (He (Forall_inv Hwf)), (IHall (Forall_inv_tail Hwf)). reflexivity.
  - apply well_formed_properties in Hwf. destruct Hwf as [Hkeys Hwf].
    cbn [canonical]. f_equal.
    assert (forall done : list (string * JSValue),
               NoDup (map fst done ++ map fst properties) ->
               fold_left (fun done p => match p with
                                        | (k, x) => define k (canonical x) done
                                        end) properties done
               = (done ++ properties)%list) as Hfold.
    { clear Hkeys. induction IH as [ | [k x] properties Hx _ IHall]; intros done Hkeys.
      - rewrite List.app_nil_r. reflexivity.
      - destruct (Forall_inv Hwf) as (_ & Hnum & Hwx). cbn [fst snd] in Hnum, Hwx, Hx.
        cbn [fold_left]. rewrite (Hx Hwx), define_fresh.
        + rewrite (IHall (Forall_inv_tail Hwf)).
          * rewrite <- List.app_assoc. reflexivity.
          * rewrite map_app, <- List.app_assoc. exact Hkeys.
        + exact Hnum.
        + apply NoDup_remove_2 in Hkeys. intros Hin. apply Hkeys.
          apply in_or_app. left; exact Hin. }
    apply (Hfold [] Hkeys).
Qed.

Lemma parse_cons (st : ParseState) (t : Token) (rest : list Token) :
  parse_tokens st (t :: rest) =
    match parse_step st t with
    | Next st' => parse_tokens st' rest
    | Bad => Rejected syntax_error
    | Beyond => Undetermined
    end.
Proof. reflexivity. Qed.

(** No value starts with a closing bracket, so after an opening one its
    first token starts the first element. *)
Lemma parse_first_element (v : JSValue) (stack : list Frame) (rest : list Token) :
  parse_tokens (PFirstElement stack) (tokens v ++ rest)
  = parse_tokens (PValue (InArray [] :: stack)) (tokens v ++ rest).
Proof. destruct v as [ | [] | | | | ]; reflexivity. Qed.

(** The elements after the first, each behind its comma, up to the
    closing bracket. *)
Lemma parse_elements (elements : list JSValue) :
  Forall parses elements ->
  forall (e : JSValue) (done : list JSValue) (stack : list Frame) (rest : list Token),
    parse_tokens (PDone e (InArray done :: stack))
      (concat (map (cons TComma) (map tokens elements)) ++ TRBracket :: rest)
    = parse_tokens (PDone (JArr (done ++ e :: elements)) stack) rest.
Proof.
  induction elements as [ | x elements IH]; intros Hall e done stack rest.
  - reflexivity.
  - cbn [map concat]. rewrite <- !List.app_comm_cons.
    rewrite parse_cons. cbn [parse_step]. rewrite <- List.app_assoc.
    rewrite (Forall_inv Hall), (IH (Forall_inv_tail Hall)), <- List.app_assoc.
    reflexivity.
Qed.

(** The properties after the first, each behind its comma, up to the
    closing brace. *)
Lemma parse_members (properties : list (string * JSValue)) :
  Forall (fun p => numeric_key (fst p) = false /\ parses (snd p)) properties ->
  forall (k : string) (x : JSValue) (done : list (string * JSValue))
         (stack : list Frame) (rest : list Token),
    numeric_key k = false ->
    NoDup (map fst done ++ k :: map fst properties) ->
    parse_tokens (PDone x (InObject done k :: stack))
      (concat (map (cons TComma) (map member_tokens properties)) ++ TRBrace :: rest)
    = parse_tokens (PDone (JObj (done ++ (k, x) :: properties)) stack) rest.
Proof.
  induction properties as [ | [k' x'] properties IH];
    intros Hall k x done stack rest Hk Hkeys.
  - cbn [map concat app]. rewrite parse_cons. cbn [parse_step].
    rewrite define_fresh; [reflexivity | exact Hk | ].
    apply NoDup_remove_2 in Hkeys. rewrite List.app_nil_r in Hkeys. exact Hkeys.
  - destruct (Forall_inv Hall) as [Hnum Hx']. cbn [fst snd] in Hnum, Hx'.
    cbn [map concat member_tokens]. rewrite <- !List.app_comm_cons.
    rewrite parse_cons. cbn [parse_step].
    rewrite parse_cons. cbn [parse_step key_step]. rewrite Hnum.
    rewrite parse_cons. cbn [parse_step].
    rewrite <- List.app_assoc, Hx'.
    rewrite define_fresh.
    + rewrite (IH (Forall_inv_tail Hall)).
      * rewrite <- List.app_assoc. reflexivity.
      * exact Hnum.
      * rewrite map_app, <- List.app_assoc. exact Hkeys.
    + exact Hk.
    + apply NoDup_remove_2 in Hkeys. intros Hin. apply Hkeys.
      apply in_or_app. left; exact Hin.
Qed.

(** The tokens of a value are parsed to the value. *)
Lemma parse_tokens_value (v : JSValue) : well_formed v -> parses v.
Proof.
  induction v as [ | b | n | s | elements IH | properties IH] using JSValue_nested_ind;
    intros Hwf stack rest.
  - reflexivity.
  - destruct b; reflexivity.
  - reflexivity.
  - reflexivity.
  - apply well_formed_elements in Hwf.
    assert (Forall parses elements) as Hall.
    { clear stack rest. induction IH as [ | e elements He _ IHall]; constructor.
      - apply He, (Forall_inv Hwf).
      - apply IHall, (Forall_inv_tail Hwf). }
    clear IH Hwf.
    destruct elements as [ | e elements]; [reflexivity | ].
    cbn [tokens map separate]. rewrite <- !List.app_comm_cons.
    rewrite parse_cons. cbn [parse_step value_start].
    rewrite <- !List.app_assoc, parse_first_element, (Forall_inv Hall).
    apply (parse_elements elements (Forall_inv_tail Hall) e []).
  - apply well_formed_properties in Hwf. destruct Hwf as [Hkeys Hwf].
    assert (Forall (fun p => numeric_key (fst p) = false /\ parses (snd p)) properties)
      as Hall.
    { clear stack rest Hkeys. induction IH as [ | p properties Hp _ IHall]; constructor.
      - destruct (Forall_inv Hwf) as (_ & Hnum & Hwx). split; [exact Hnum | exact (Hp Hwx)].
      - apply IHall, (Forall_inv_tail Hwf). }
    clear IH Hwf.
    destruct properties as [ | [k x] properties]; [reflexivity | ].
    destruct (Forall_inv Hall) as [Hnum Hx]. cbn [fst snd] in Hnum, Hx.
    cbn [tokens map separate]. rewrite <- !List.app_comm_cons.
    rewrite parse_cons. cbn [parse_step value_start].
    rewrite parse_cons. cbn [parse_step key_step]. rewrite Hnum.
    rewrite parse_cons. cbn [parse_step].
    rewrite <- !List.app_assoc, Hx.
    apply (parse_members properties (Forall_inv_tail Hall) k x [] _ _ Hnum). exact Hkeys.
Qed.

(** [JSON.parse(JSON.stringify(v))] is [v]. *)
Theorem parse_stringify (v : JSValue) :
  well_formed v -> parse_result (stringify v) = Fulfilled v.
Proof.
  intros Hwf. unfold parse_result, stringify.
  rewrite (canonical_well_formed v Hwf).
  rewrite <- (append_nil_r (serialise v)), (lex_stringify v Hwf "" I).
  cbn [lex lex_end map_settled].
  rewrite (parse_tokens_value v Hwf). reflexivity.
Qed.

(** The error of a parse is a [SyntaxError]. *)
Lemma lex_rejects (text : string) (m : LexMode) (e : JSError) :
  lex m text = Rejected e -> e = syntax_error.
Proof.
  revert m. induction text as [ | c text IH]; intros m H.
  - destruct m; simpl in H; try congruence.
    destruct (to_safe (signed neg acc)); discriminate H.
  - rewrite lex_cons in H. destruct (lex_step m c) as [[m' out] | | ].
    + destruct (lex m' text) eqn:Hlex; simpl in H; try discriminate H.
      injection H as <-. apply (IH m' Hlex).
    + congruence.
    + discriminate H.
Qed.

Lemma parse_tokens_rejects (ts : list Token) (st : ParseState) (e : JSError) :
  parse_tokens st ts = Rejected e -> e = syntax_error.
Proof.
  revert st. induction ts as [ | t ts IH]; intros st H.
  - destruct st as [ | | | | | v [ | f stack]]; simpl in H; congruence.
  - rewrite parse_cons in H. destruct (parse_step st t) as [st' | | ].
    + apply (IH st' H).
    + congruence.
    + discriminate H.
Qed.

Lemma parse_result_rejects (text : string) (e : JSError) :
  parse_result text = Rejected e -> e = syntax_error.
Proof.
  unfold parse_result. destruct (lex LStart text) as [ts | e' | ] eqn:Hlex; intros H.
  - apply (parse_tokens_rejects ts _ e H).
  - injection H as <-. apply (lex_rejects _ _ _ Hlex).
  - discriminate H.
Qed.

End JSONFacts.

(** * Facts about the client *)

(** ** Conversions of arguments *)

(** A conversion by [ToString] yields a string or throws a [TypeError];
    the model always knows which. *)
Lemma ToString_settles (v : JSValue) :
  (exists s : string, ToString v = Fulfilled s) \/
  (exists e : JSError, ToString v = Rejected e /\ name e = "TypeError").
Proof.
  induction v as [ | b | n | s | elements IH | properties _] using JSValue_nested_ind.
  - left; eexists; reflexivity.
  - left; destruct b; eexists; reflexivity.
  - left; eexists; reflexivity.
  - left; eexists; reflexivity.
  - cbn [ToString].
    assert ((exists l, all_fulfilled
                         (map (fun e => match e with
                                        | JNull => Fulfilled ""
                                        | _ => ToString e
                                        end) elements) = Fulfilled l) \/
            (exists e, all_fulfilled
                         (map (fun e => match e with
                                        | JNull => Fulfilled ""
                                        | _ => ToString e
                                        end) elements) = Rejected e /\
                       name e = "TypeError")) as [[l Hl] | (e & He & Hname)].
    { induction IH as [ | x elements Hx _ IHall]; [left; eexists; reflexivity | ].
      cbn [map all_fulfilled].
      assert ((exists s, match x with
                         | JNull => Fulfilled ""
                         | _ => ToString x
                         end = Fulfilled s) \/
              (exists e, match x with
                         | JNull => Fulfilled ""
                         | _ => ToString x
                         end = Rejected e /\ name e = "TypeError")) as [[s Hs] | (e & He & Hn)].
      { destruct x; try exact Hx. left; eexists; reflexivity. }
      - rewrite Hs. destruct IHall as [[l Hl] | (e & He & Hn)].
        + left. rewrite Hl. eexists; reflexivity.
        + right. rewrite He. exists e. split; [reflexivity | exact Hn].
      - right. rewrite He. exists e. split; [reflexivity | exact Hn]. }
    + left. rewrite Hl. eexists; reflexivity.
    + right. rewrite He. exists e. split; [reflexivity | exact Hname].
  - cbn [ToString]. destruct (has_key "toString" properties).
    + right. eexists. split; reflexivity.
    + left. eexists; reflexivity.
Qed.

Lemma printable_true (v : JSValue) :
  printable v = true -> ToString v = Fulfilled (rendering v).
Proof.
  unfold printable, rendering. destruct (ToString v); intros H; [reflexivity | | ]; discriminate H.
Qed.

Lemma printable_false (v : JSValue) :
  printable v = false ->
  exists e : JSError, ToString v = Rejected e /\ name e = "TypeError".
Proof.
  unfold printable. intros H.
  destruct (ToString_settles v) as [[s Hs] | He]; [ | exact He].
  rewrite Hs in H. discriminate H.
Qed.

(** ** The common shape of the thirteen functions *)

Lemma ok_range (response : Response) :
  ok response = true <-> 200 <= status response <= 299.
Proof.
  unfold ok. rewrite andb_true_iff, !Z.leb_le. tauto.
Qed.

Lemma not_ok_range (response : Response) :
  ok response = false <-> status response < 200 \/ 299 < status response.
Proof.
  unfold ok. rewrite andb_false_iff, !Z.leb_gt. tauto.
Qed.

(** Unfolds a call whose arguments convert down to its one [fetch]. *)
Ltac open_call :=
  cbv [invoke]; autounfold with api;
  unfold template; cbn [map part_string];
  repeat match goal with
         | H : printable ?v = true |- _ => rewrite (printable_true v H); clear H
         end;
  cbn [all_fulfilled map_settled].

(** A call whose URL can be built sends one request that depends on the
    call alone, and ends in one of three ways: with the rejection of
    [fetch], with the call's own error on a status that is not ok, or as
    [json()] ends. *)
Lemma invoke_shape (c : Call) :
  convertible c = true ->
  exists request : Request, forall net : Network,
    run (invoke c) net = ends_with c net request.
Proof.
  intros Hc. destruct c; cbn [convertible interpolated forallb] in Hc;
    repeat match type of Hc with
           | (_ && _)%bool = true =>
               let H := fresh "Hp" in
               apply andb_true_iff in Hc; destruct Hc as [H Hc]
           end;
    clear Hc;
    open_call; cbv [run bind eval];
    lazymatch goal with
    | |- context [fetch ?u ?i] => exists (new_request u i)
    end;
    intros net; cbv [run bind eval fetch json throw app ends_with failure_message];
    (destruct (net _) as [response | e | ]; [destruct (ok response) | | ];
     reflexivity).
Qed.

(** A call with an argument that does not convert ends where the
    template literal throws: before any request. *)
Lemma invoke_unconvertible (c : Call) :
  convertible c = false ->
  exists e : JSError,
    name e = "TypeError" /\
    forall net : Network, run (invoke c) net = (Rejected e, []).
Proof.
  intros Hc. destruct c; cbn [convertible interpolated forallb] in Hc;
    try discriminate Hc;
    cbv [invoke]; autounfold with api; unfold template; cbn [map part_string];
    repeat match type of Hc with
           | (printable ?v && _)%bool = false =>
               let H := fresh "Hp" in
               destruct (printable v) eqn:H;
               [ rewrite (printable_true v H); cbn [andb] in Hc
               | clear Hc; destruct (printable_false v H) as (e & He & Hname);
                 rewrite He; cbn [all_fulfilled map_settled];
                 exists e; split; [exact Hname | intros net; reflexivity] ]
           end;
    discriminate Hc.
Qed.

(** The one request of a call whose URL can be built, with the way the
    call ends. *)
Lemma call_ends (c : Call) (net : Network) :
  convertible c = true ->
  exists request : Request,
    issued (invoke c) net = [request] /\
    run (invoke c) net = ends_with c net request.
Proof.
  intros Hc. destruct (invoke_shape c Hc) as [request Hrun].
  exists request. split; [ | apply Hrun].
  unfold issued, log_of. rewrite Hrun. unfold ends_with.
  destruct (net request) as [response | e | ]; [destruct (ok response) | | ]; reflexivity.
Qed.

(** The run of a call whose request got a response. *)
Lemma ends_with_response (c : Call) (net : Network) (request : Request) (response : Response) :
  net request = Fulfilled response ->
  ends_with c net request =
    if ok response
    then (JSON.parse_result (text response), [Fetched request; BodyRead response])
    else (Rejected (Error (failure_message c)), [Fetched request]).
Proof. intros Hnet. unfold ends_with. rewrite Hnet. reflexivity. Qed.

(** ** Failure on a status that is not ok *)

(** C1.  Whatever the operation and its arguments, once the call has
    sent its request (which it does whenever its URL can be built), a
    response with a status outside 200-299 makes the call reject with
    the operation's own [Error], whose message does not come from the
    response; so the call fulfils with no value, and the log of the
    call holds no read of a response body. *)
Theorem non_ok_status_rejects (c : Call) (net : Network) :
  convertible c = true ->
  exists request : Request,
    issued (invoke c) net = [request] /\
    forall response : Response,
      net request = Fulfilled response ->
      status response < 200 \/ 299 < status response ->
      outcome (invoke c) net = Rejected (Error (failure_message c)) /\
      (forall v : JSValue, outcome (invoke c) net <> Fulfilled v) /\
      bodies_read (log_of (invoke c) net) = [].
Proof.
  intros Hc. destruct (call_ends c net Hc) as (request & Hissued & Hrun).
  exists request. split; [exact Hissued | ].
  intros response Hnet Hstatus.
  apply not_ok_range in Hstatus.
  rewrite (ends_with_response c net request response Hnet), Hstatus in Hrun.
  unfold outcome, log_of. rewrite Hrun. simpl.
  split; [reflexivity | split; [intros v H; discriminate H | reflexivity]].
Qed.

Lemma non_ok_status_rejects_witness :
  convertible delete_mentors_4 = true /\
  issued (invoke delete_mentors_4) (always_responds server_error)
    = [delete_mentors_4_request] /\
  outcome (invoke delete_mentors_4) (always_responds server_error)
    = Rejected (Error "Failed to delete mentors") /\
  bodies_read (log_of (invoke delete_mentors_4) (always_responds server_error)) = [].
Proof.
  destruct (non_ok_status_rejects delete_mentors_4 (always_responds server_error) eq_refl)
    as (request & Hissued & Hends).
  destruct (Hends server_error eq_refl (or_intror eq_refl)) as (Hout & _ & Hbodies).
  split; [reflexivity | split; [reflexivity | split; [exact Hout | exact Hbodies]]].
Defined.

(** ** Success of the write operations *)

(** C2.  For each of the three entities and each of insert, update and
    delete: the call sends its request (whenever its URL can be built),
    and when the backend answers that request with status 200 and a
    body that is the JSON text of [B], the call fulfils with [B]
    itself. *)
Theorem mutation_resolves_with_body
    (e : Entity) (o : Mutation) (id payload : JSValue) (net : Network) :
  convertible (mutation e o id payload) = true ->
  exists request : Request,
    issued (invoke (mutation e o id payload)) net = [request] /\
    forall (response : Response) (B : JSValue),
      net request = Fulfilled response ->
      status response = 200 ->
      JSON.parse (text response) = Some B ->
      outcome (invoke (mutation e o id payload)) net = Fulfilled B.
Proof.
  intros Hc. destruct (call_ends _ net Hc) as (request & Hissued & Hrun).
  exists request. split; [exact Hissued | ].
  intros response B Hnet Hstatus Hbody.
  assert (ok response = true) as Hok by (apply ok_range; lia).
  rewrite (ends_with_response _ net request response Hnet), Hok in Hrun.
  unfold outcome. rewrite Hrun. simpl.
  unfold JSON.parse in Hbody.
  destruct (JSON.parse_result (text response)); congruence.
Qed.

Lemma mutation_resolves_with_body_witness :
  convertible delete_projects_3_5 = true /\
  JSON.parse (text deleted_response) = Some deleted /\
  issued (invoke delete_projects_3_5) (always_responds deleted_response)
    = [delete_projects_3_5_request] /\
  outcome (invoke delete_projects_3_5) (always_responds deleted_response) = Fulfilled deleted.
Proof.
  destruct (mutation_resolves_with_body Projects Delete JNull (JArr [JNum 3; JNum 5])
              (always_responds deleted_response) eq_refl)
    as (request & Hissued & Hends).
  split; [reflexivity | split; [reflexivity | split; [reflexivity | ]]].
  apply (Hends deleted_response deleted); reflexivity.
Defined.

(** ** One request per call *)




(** ** An ok status is not enough *)

(** C10.  When the response to the call's request has an ok status, the
    call ends exactly as [response.json()] ends, after one read of the
    body: it fulfils with [v] when the body parses to [v] and only
    then, and when the parse throws it rejects with that error, a
    [SyntaxError]. *)
Theorem ok_status_needs_json_body (c : Call) (net : Network) :
  convertible c = true ->
  exists request : Request,
    issued (invoke c) net = [request] /\
    forall response : Response,
      net request = Fulfilled response ->
      200 <= status response <= 299 ->
      outcome (invoke c) net = JSON.parse_result (text response) /\
      (forall e : JSError,
         JSON.parse_result (text response) = Rejected e ->
         outcome (invoke c) net = Rejected e /\ name e = "SyntaxError") /\
      (forall v : JSValue,
         outcome (invoke c) net = Fulfilled v -> JSON.parse (text response) = Some v) /\
      bodies_read (log_of (invoke c) net) = [response].
Proof.
  intros Hc. destruct (call_ends c net Hc) as (request & Hissued & Hrun).
  exists request. split; [exact Hissued | ].
  intros response Hnet Hstatus.
  apply ok_range in Hstatus.
  rewrite (ends_with_response c net request response Hnet), Hstatus in Hrun.
  unfold outcome, log_of. rewrite Hrun. simpl.
  split; [reflexivity | split; [ | split; [ | reflexivity]]].
  - intros e He. split; [exact He | ].
    rewrite (JSONFacts.parse_result_rejects _ _ He). reflexivity.
  - intros v Hv. unfold JSON.parse. rewrite Hv. reflexivity.
Qed.

Lemma ok_status_needs_json_body_witness :
  convertible delete_mentors_4 = true /\
  JSON.parse_result (text html_response) = Rejected JSON.syntax_error /\
  issued (invoke delete_mentors_4) (always_responds html_response)
    = [delete_mentors_4_request] /\
  outcome (invoke delete_mentors_4) (always_responds html_response)
    = Rejected JSON.syntax_error /\
  bodies_read (log_of (invoke delete_mentors_4) (always_responds html_response))
    = [html_response].
Proof.
  destruct (ok_status_needs_json_body delete_mentors_4 (always_responds html_response) eq_refl)
    as (request & Hissued & Hends).
  assert (200 <= status html_response <= 299) as Hstatus
    by (split; intro H; discriminate H).
  destruct (Hends html_response eq_refl Hstatus) as (_ & Hrej & _ & Hbodies).
  split; [reflexivity | split; [reflexivity | split; [reflexivity | split]]].
  - apply (Hrej JSON.syntax_error). reflexivity.
  - exact Hbodies.
Defined.

(** ** What a failure looks like to the caller *)

(** C3, as stated, fails twice over.  An unreachable backend makes
    [deleteMentors] reject with the [TypeError] of [fetch], while a
    server error makes the same call reject with the function's own
    [Error]; and the message of [fetchEntityColumns] changes with its
    argument. *)
Lemma failures_not_uniform :
  outcome (invoke delete_mentors_4) network_down
    = Rejected (TypeError "Failed to fetch") /\
  outcome (invoke delete_mentors_4) (always_responds server_error)
    = Rejected (Error "Failed to delete mentors") /\
  outcome (invoke (CallFetchEntityColumns (JStr "students"))) (always_responds server_error)
    = Rejected (Error "Failed to fetch students columns") /\
  outcome (invoke (CallFetchEntityColumns (JStr "mentors"))) (always_responds server_error)
    = Rejected (Error "Failed to fetch mentors columns") /\
  ~ failures_uniform.
Proof.
  repeat split; try reflexivity.
  intros Huniform.
  specialize (Huniform delete_mentors_4 delete_mentors_4
                network_down (always_responds server_error)
                (TypeError "Failed to fetch") (Error "Failed to delete mentors")
                eq_refl eq_refl eq_refl).
  discriminate Huniform.
Qed.

(** C3, amended.  A call that has sent its request fails towards the
    caller in two ways that are kept apart.  On a status that is not ok
    it rejects with an [Error] carrying the operation's message: one
    fixed string for each operation but [fetchEntityColumns], the same
    for every call of the operation whatever the arguments and the
    response, and for [fetchEntityColumns] the text
    [Failed to fetch <entity> columns] built from its argument.  A
    rejection of [fetch] itself is not given that message: the call
    rejects with the very error [fetch] rejected with. *)
Theorem failure_surface :
  (forall (c : Call) (net : Network),
      convertible c = true ->
      exists request : Request,
        issued (invoke c) net = [request] /\
        (forall response : Response,
            net request = Fulfilled response ->
            ok response = false ->
            outcome (invoke c) net = Rejected (Error (failure_message c))) /\
        (forall e : JSError,
            net request = Rejected e ->
            outcome (invoke c) net = Rejected e)) /\
  (forall (entity : JSValue) (s : string),
      ToString entity = Fulfilled s ->
      failure_message (CallFetchEntityColumns entity)
      = "Failed to fetch " ++ s ++ " columns") /\
  (forall a b c : JSValue,
      map failure_message
        [CallSearchRecords a b c; CallSortRecords a b c; CallSelectAllRecords a;
         CallInsertStudent a; CallDeleteStudents a; CallUpdateStudent a b;
         CallInsertMentor a; CallUpdateMentor a b; CallDeleteMentors a;
         CallInsertProject a; CallUpdateProject a b; CallDeleteProjects a]
      = ["Failed to search records"; "Failed to sort records";
         "Failed to fetch all records";
         "Failed to insert student"; "Failed to delete students";
         "Failed to update student";
         "Failed to insert mentor"; "Failed to update mentor";
         "Failed to delete mentors";
         "Failed to insert project"; "Failed to update project";
         "Failed to delete projects"]).
Proof.
  split; [ | split].
  - intros c net Hc. destruct (call_ends c net Hc) as (request & Hissued & Hrun).
    exists request. split; [exact Hissued | split].
    + intros response Hnet Hok.
      rewrite (ends_with_response c net request response Hnet), Hok in Hrun.
      unfold outcome. rewrite Hrun. reflexivity.
    + intros e Hnet. unfold ends_with in Hrun. rewrite Hnet in Hrun.
      unfold outcome. rewrite Hrun. reflexivity.
  - intros entity s Hs. unfold failure_message, rendering. rewrite Hs. reflexivity.
  - intros a b c. reflexivity.
Qed.

Lemma failure_surface_witness :
  (convertible update_student_1 = true /\
   issued (invoke update_student_1) (always_responds not_found) = [update_student_1_request] /\
   outcome (invoke update_student_1) (always_responds not_found)
   = Rejected (Error "Failed to update student")) /\
  (convertible delete_mentors_4 = true /\
   outcome (invoke delete_mentors_4) network_down = Rejected (TypeError "Failed to fetch")) /\
  failure_message (CallFetchEntityColumns (JStr "students"))
  = "Failed to fetch students columns".
Proof.
  split; [ | split].
  - destruct (proj1 failure_surface update_student_1 (always_responds not_found) eq_refl)
      as (request & Hissued & Hhttp & _).
    split; [reflexivity | split; [reflexivity | ]].
    apply (Hhttp not_found); reflexivity.
  - destruct (proj1 failure_surface delete_mentors_4 network_down eq_refl)
      as (request & Hissued & _ & Hnetwork).
    split; [reflexivity | ].
    apply (Hnetwork (TypeError "Failed to fetch")). reflexivity.
  - apply (proj1 (proj2 failure_surface) (JStr "students") "students"). reflexivity.
Defined.

(** ** The requests themselves *)

(** Unfolds a call down to the answer of the network and splits on it. *)
Ltac settle net :=
  unfold urls, issued, outcome, log_of, run; autounfold with api;
  cbv [bind eval template map part_string ToString all_fulfilled map_settled
       fetch json throw new_request app];
  destruct (net _) as [?response | ?e | ]; [destruct (ok _) | | ].

(** C4.  With strings for the entity, column, value, order and
    identifier, the URL each operation fetches is the base URL, the
    literal fragments of the path or query, and the arguments as they
    are, concatenated: no character of an argument is encoded or
    escaped. *)
Theorem urls_are_raw_concatenations
    (net : Network) (entity column value order id : string) (payload : JSValue) :
  urls (fetchEntityColumns (JStr entity)) net
    = [BASE_URL ++ "/" ++ entity ++ "/columns"] /\
  urls (searchRecords (JStr entity) (JStr column) (JStr value)) net
    = [BASE_URL ++ "/search?entity=" ++ entity ++ "&column=" ++ column ++ "&value=" ++ value] /\
  urls (sortRecords (JStr entity) (JStr column) (JStr order)) net
    = [BASE_URL ++ "/sort?entity=" ++ entity ++ "&column=" ++ column ++ "&order=" ++ order] /\
  urls (selectAllRecords (JStr entity)) net
    = [BASE_URL ++ "/all?entity=" ++ entity] /\
  urls (insertStudent payload) net = [BASE_URL ++ "/students"] /\
  urls (deleteStudents payload) net = [BASE_URL ++ "/students"] /\
  urls (updateStudent (JStr id) payload) net = [BASE_URL ++ "/students/" ++ id] /\
  urls (insertMentor payload) net = [BASE_URL ++ "/mentors"] /\
  urls (updateMentor (JStr id) payload) net = [BASE_URL ++ "/mentors/" ++ id] /\
  urls (deleteMentors payload) net = [BASE_URL ++ "/mentors"] /\
  urls (insertProject payload) net = [BASE_URL ++ "/projects"] /\
  urls (updateProject (JStr id) payload) net = [BASE_URL ++ "/projects/" ++ id] /\
  urls (deleteProjects payload) net = [BASE_URL ++ "/projects"].
Proof.
  repeat split; settle net; reflexivity.
Qed.

(** A value with a space, an ampersand, an equals sign and a hash goes
    into the URL untouched. *)
Example reserved_characters_stay_raw (net : Network) :
  urls (searchRecords (JStr "projects") (JStr "title") (JStr "R&D = 100% #1")) net
    = ["http://localhost:8000/search?entity=projects&column=title&value=R&D = 100% #1"].
Proof.
  settle net; reflexivity.
Qed.

(** C6.  [fetchEntityColumns("students")] sends one request, a GET of
    [/students/columns] under the base URL, and when the response to it
    is ok the call fulfils with the value its body parses to. *)
Theorem fetch_students_columns (net : Network) :
  issued (fetchEntityColumns (JStr "students")) net = [students_columns_request] /\
  forall (response : Response) (v : JSValue),
    net students_columns_request = Fulfilled response ->
    ok response = true ->
    JSON.parse (text response) = Some v ->
    outcome (fetchEntityColumns (JStr "students")) net = Fulfilled v.
Proof.
  assert (issued (fetchEntityColumns (JStr "students")) net = [students_columns_request])
    as Hissued by (settle net; reflexivity).
  split; [exact Hissued | ].
  intros response v Hnet Hok Hbody.
  destruct (call_ends (CallFetchEntityColumns (JStr "students")) net eq_refl)
    as (request & Hissued' & Hrun).
  cbv [invoke] in Hissued', Hrun.
  rewrite Hissued in Hissued'. injection Hissued' as <-.
  rewrite (ends_with_response _ net _ response Hnet), Hok in Hrun.
  unfold outcome. rewrite Hrun. simpl.
  unfold JSON.parse in Hbody.
  destruct (JSON.parse_result (text response)); congruence.
Qed.

Lemma fetch_students_columns_witness :
  (always_responds columns_response students_columns_request = Fulfilled columns_response /\
   ok columns_response = true /\
   JSON.parse (text columns_response) = Some (JArr [JStr "id"; JStr "name"])) /\
  issued (fetchEntityColumns (JStr "students")) (always_responds columns_response)
    = [students_columns_request] /\
  outcome (fetchEntityColumns (JStr "students")) (always_responds columns_response)
    = Fulfilled (JArr [JStr "id"; JStr "name"]).
Proof.
  split; [repeat split | split].
  - apply (proj1 (fetch_students_columns (always_responds columns_response))).
  - apply (proj2 (fetch_students_columns (always_responds columns_response))
             columns_response (JArr [JStr "id"; JStr "name"])); reflexivity.
Defined.

(** C7.  [searchRecords("projects", "status", "active")] sends a GET
    whose query string is [entity=projects&column=status&value=active]:
    the three parameters, in that order. *)
Theorem search_projects_by_status (net : Network) :
  exists url : string,
    issued (searchRecords (JStr "projects") (JStr "status") (JStr "active")) net
      = [{| req_url := url; req_method := "GET"; req_headers := []; req_body := None |}] /\
    url = BASE_URL ++ "/search?" ++ "entity=projects&column=status&value=active" /\
    query_string url = "entity=projects&column=status&value=active".
Proof.
  eexists. split; [settle net; reflexivity | split; reflexivity].
Qed.

(** C8.  [deleteStudents([1,2,3])] sends a DELETE of [/students] under
    the base URL, with the header [Content-Type: application/json] and
    the body [[1,2,3]], the JSON text of the array. *)
Theorem delete_students_1_2_3 (net : Network) :
  issued (deleteStudents (JArr [JNum 1; JNum 2; JNum 3])) net
    = [{| req_url := "http://localhost:8000/students";
          req_method := "DELETE";
          req_headers := [("Content-Type", "application/json")];
          req_body := Some "[1,2,3]" |}] /\
  JSON.parse "[1,2,3]" = Some (JArr [JNum 1; JNum 2; JNum 3]).
Proof.
  split; [settle net; reflexivity | reflexivity].
Qed.

(** C9.  [updateMentor(7, {name: "Alice"})] sends a PUT of [/mentors/7]
    under the base URL with the JSON body [{"name":"Alice"}], and when
    the backend answers it with status 200 and the body
    [{"id":7,"name":"Alice"}] the call fulfils with the object that has
    [id] 7 and [name] "Alice". *)
Theorem update_mentor_7_alice (net : Network) :
  issued (updateMentor (JNum 7) (JObj [("name", JStr "Alice")])) net
    = [update_mentor_7_request] /\
  (net update_mentor_7_request = Fulfilled alice_response ->
   outcome (updateMentor (JNum 7) (JObj [("name", JStr "Alice")])) net = Fulfilled alice).
Proof.
  assert (issued (updateMentor (JNum 7) (JObj [("name", JStr "Alice")])) net
          = [update_mentor_7_request])
    as Hissued by (settle net; reflexivity).
  split; [exact Hissued | ].
  intros Hnet.
  destruct (call_ends update_mentor_7 net eq_refl) as (request & Hissued' & Hrun).
  cbv [invoke update_mentor_7] in Hissued', Hrun.
  rewrite Hissued in Hissued'. injection Hissued' as <-.
  rewrite (ends_with_response _ net _ alice_response Hnet) in Hrun.
  unfold outcome. rewrite Hrun. reflexivity.
Qed.

Lemma update_mentor_7_alice_witness :
  always_responds alice_response update_mentor_7_request = Fulfilled alice_response /\
  issued (updateMentor (JNum 7) (JObj [("name", JStr "Alice")])) (always_responds alice_response)
    = [update_mentor_7_request] /\
  outcome (updateMentor (JNum 7) (JObj [("name", JStr "Alice")])) (always_responds alice_response)
    = Fulfilled alice.
Proof.
  split; [reflexivity | split].
  - apply (proj1 (update_mentor_7_alice (always_responds alice_response))).
  - apply (proj2 (update_mentor_7_alice (always_responds alice_response))). reflexivity.
Defined.

(** * Further facts about the client *)

(** ** How a call ends *)

(** A call does not fulfil unless its one request got a response with
    an ok status whose body, read once, parses to the value the call
    fulfils with. *)
Theorem fulfilled_means_ok_json (c : Call) (net : Network) (v : JSValue) :
  outcome (invoke c) net = Fulfilled v ->
  exists (request : Request) (response : Response),
    issued (invoke c) net = [request] /\
    net request = Fulfilled response /\
    ok response = true /\
    JSON.parse (text response) = Some v /\
    bodies_read (log_of (invoke c) net) = [response].
Proof.
  intros Hout. destruct (convertible c) eqn:Hc.
  - destruct (call_ends c net Hc) as (request & Hissued & Hrun).
    exists request. unfold outcome, log_of in *. rewrite Hrun in *.
    unfold ends_with in *.
    destruct (net request) as [response | e | ] eqn:Hnet; try discriminate Hout.
    exists response. destruct (ok response) eqn:Hok; [ | discriminate Hout].
    simpl in *. unfold JSON.parse. rewrite Hout. repeat split; assumption || reflexivity.
  - destruct (invoke_unconvertible c Hc) as (e & _ & Hrun).
    unfold outcome in Hout. rewrite Hrun in Hout. discriminate Hout.
Qed.

Lemma fulfilled_means_ok_json_witness :
  outcome (invoke delete_projects_3_5) (always_responds deleted_response) = Fulfilled deleted /\
  exists (request : Request) (response : Response),
    issued (invoke delete_projects_3_5) (always_responds deleted_response) = [request] /\
    always_responds deleted_response request = Fulfilled response /\
    ok response = true /\
    JSON.parse (text response) = Some deleted /\
    bodies_read (log_of (invoke delete_projects_3_5) (always_responds deleted_response))
    = [response].
Proof.
  split; [reflexivity | ].
  apply (fulfilled_means_ok_json delete_projects_3_5 (always_responds deleted_response) deleted).
  reflexivity.
Defined.


(** ** An ok response with nothing in it *)

Lemma parse_blank (s : string) :
  blank s = true -> JSON.parse_result s = Rejected JSON.syntax_error.
Proof.
  intros Hblank.
  assert (JSON.lex JSON.LStart s = Fulfilled []) as Hlex.
  { induction s as [ | c s IH]; [reflexivity | ].
    simpl in Hblank. apply andb_true_iff in Hblank. destruct Hblank as [Hc Hs].
    assert (JSON.is_ascii c = true) as Hascii.
    { destruct c as [b0 b1 b2 b3 b4 b5 b6 [ | ]]; [ | reflexivity].
      destruct b0, b1, b2, b3, b4, b5, b6; discriminate Hc. }
    rewrite (JSONFacts.lex_start _ _ Hascii). unfold JSON.start_step.
    rewrite Hc, (IH Hs). reflexivity. }
  unfold JSON.parse_result. rewrite Hlex. reflexivity.
Qed.

(** A response with an ok status and an empty body, or a body of
    whitespace only (a 204 No Content, say), makes every operation
    reject with a [SyntaxError]: success without a JSON body is not
    success for this client. *)
Theorem blank_body_rejects (c : Call) (net : Network) :
  convertible c = true ->
  exists request : Request,
    issued (invoke c) net = [request] /\
    forall response : Response,
      net request = Fulfilled response ->
      200 <= status response <= 299 ->
      blank (text response) = true ->
      exists msg : string, outcome (invoke c) net = Rejected (SyntaxError msg).
Proof.
  intros Hc. destruct (call_ends c net Hc) as (request & Hissued & Hrun).
  exists request. split; [exact Hissued | ].
  intros response Hnet Hstatus Hblank.
  apply ok_range in Hstatus.
  rewrite (ends_with_response c net request response Hnet), Hstatus in Hrun.
  unfold outcome. rewrite Hrun. simpl.
  rewrite (parse_blank _ Hblank). eexists; reflexivity.
Qed.

Lemma blank_body_rejects_witness :
  convertible delete_mentors_4 = true /\
  blank (text no_content) = true /\
  issued (invoke delete_mentors_4) (always_responds no_content) = [delete_mentors_4_request] /\
  exists msg : string,
    outcome (invoke delete_mentors_4) (always_responds no_content) = Rejected (SyntaxError msg).
Proof.
  destruct (blank_body_rejects delete_mentors_4 (always_responds no_content) eq_refl)
    as (request & Hissued & Hends).
  split; [reflexivity | split; [reflexivity | split; [reflexivity | ]]].
  apply (Hends no_content); [reflexivity | split; intro H; discriminate H | reflexivity].
Defined.

(** ** What the requests look like *)

(** The request of a write: its method by the kind of write, the one
    header, and the serialised payload as its body. *)
Lemma write_request (e : Entity) (o : Mutation) (id payload : JSValue) (net : Network) :
  convertible (mutation e o id payload) = true ->
  exists url : string,
    issued (invoke (mutation e o id payload)) net
    = [{| req_url := url;
          req_method := http_method o;
          req_headers := [("Content-Type", "application/json")];
          req_body := Some (JSON.stringify payload) |}].
Proof.
  intros Hc.
  destruct e, o; cbn [mutation convertible interpolated forallb] in Hc;
    try (apply andb_true_iff in Hc; destruct Hc as [Hp _]);
    cbv [mutation]; open_call; eexists;
    unfold issued, log_of, run; cbv [bind eval fetch json throw new_request app];
    (destruct (net _) as [response | e | ]; [destruct (ok response) | | ]; reflexivity).
Qed.

Lemma ada_well_formed :
  JSON.well_formed
    (JObj [("name", JStr "Ada"); ("marks", JArr [JNum 9; JNum (-1); JNull]);
           ("active", JBool true)]).
Proof.
  simpl. repeat split.
  repeat (constructor; [simpl; intuition discriminate | ]). constructor.
Defined.



(** The four generic operations send a GET with no header of the
    caller's and no body, whenever their URL can be built. *)
Theorem reads_are_bare_gets (c : Call) (net : Network) :
  is_read c = true ->
  convertible c = true ->
  exists url : string,
    issued (invoke c) net
    = [{| req_url := url; req_method := "GET"; req_headers := []; req_body := None |}].
Proof.
  intros Hread Hc.
  destruct c; try discriminate Hread; cbn [convertible interpolated forallb] in Hc;
    repeat match type of Hc with
           | (_ && _)%bool = true =>
               let H := fresh "Hp" in
               apply andb_true_iff in Hc; destruct Hc as [H Hc]
           end;
    clear Hc; open_call; eexists;
    unfold issued, log_of, run; cbv [bind eval fetch json throw new_request app];
    (destruct (net _) as [response | e | ]; [destruct (ok response) | | ]; reflexivity).
Qed.

Lemma reads_are_bare_gets_witness :
  (is_read (CallSearchRecords (JStr "students") (JStr "grade") (JStr "A&B")) = true /\
   convertible (CallSearchRecords (JStr "students") (JStr "grade") (JStr "A&B")) = true) /\
  exists url : string,
    issued (invoke (CallSearchRecords (JStr "students") (JStr "grade") (JStr "A&B"))) network_down
    = [{| req_url := url; req_method := "GET"; req_headers := []; req_body := None |}].
Proof.
  split; [split; reflexivity | ].
  apply (reads_are_bare_gets
           (CallSearchRecords (JStr "students") (JStr "grade") (JStr "A&B")) network_down);
    reflexivity.
Defined.

(** Whatever the arguments, strings or not, every request goes to a
    path under the base URL: no argument can turn the request to
    another host or port. *)
Theorem requests_stay_under_base_url (c : Call) (net : Network) :
  Forall (fun request => starts_with (BASE_URL ++ "/") (req_url request) = true)
         (issued (invoke c) net).
Proof.
  destruct (convertible c) eqn:Hc.
  - destruct c; cbn [convertible interpolated forallb] in Hc;
      repeat match type of Hc with
             | (_ && _)%bool = true =>
                 let H := fresh "Hp" in
                 apply andb_true_iff in Hc; destruct Hc as [H Hc]
             end;
      clear Hc; open_call;
      unfold issued, log_of, run; cbv [bind eval fetch json throw new_request app];
      (destruct (net _) as [response | e | ]; [destruct (ok response) | | ];
       (constructor; [reflexivity | constructor])).
  - destruct (invoke_unconvertible c Hc) as (e & _ & Hrun).
    unfold issued, log_of. rewrite Hrun. constructor.
Qed.

(** ** Arguments are not kept apart in the query string *)

Lemma search_request (entity column value : JSValue) (se sc sv : string) (net : Network) :
  ToString entity = Fulfilled se ->
  ToString column = Fulfilled sc ->
  ToString value = Fulfilled sv ->
  issued (searchRecords entity column value) net
  = [new_request (BASE_URL ++ "/search?entity=" ++ se
                    ++ "&column=" ++ sc ++ "&value=" ++ sv) None].
Proof.
  intros He Hc Hv. unfold issued, log_of, run, searchRecords, template.
  cbn [map part_string]. rewrite He, Hc, Hv.
  cbv [all_fulfilled map_settled bind eval fetch json throw app].
  destruct (net _) as [response | e | ]; [destruct (ok response) | | ]; reflexivity.
Qed.

Lemma sort_request (entity column order : JSValue) (se sc so : string) (net : Network) :
  ToString entity = Fulfilled se ->
  ToString column = Fulfilled sc ->
  ToString order = Fulfilled so ->
  issued (sortRecords entity column order) net
  = [new_request (BASE_URL ++ "/sort?entity=" ++ se
                    ++ "&column=" ++ sc ++ "&order=" ++ so) None].
Proof.
  intros He Hc Ho. unfold issued, log_of, run, sortRecords, template.
  cbn [map part_string]. rewrite He, Hc, Ho.
  cbv [all_fulfilled map_settled bind eval fetch json throw app].
  destruct (net _) as [response | e | ]; [destruct (ok response) | | ]; reflexivity.
Qed.

(** A column that ends in [&value=...] and a value that starts with
    [...&value=] cannot be told apart: moving the text across the
    boundary between the two arguments leaves the request the same.  So
    a caller-supplied string can add parameters to the query.  The same
    holds for [sortRecords] and its order. *)
Theorem query_parameters_can_be_forged (net : Network) (e c v1 v2 : string) :
  issued (searchRecords (JStr e) (JStr (c ++ "&value=" ++ v1)) (JStr v2)) net
  = issued (searchRecords (JStr e) (JStr c) (JStr (v1 ++ "&value=" ++ v2))) net /\
  issued (sortRecords (JStr e) (JStr (c ++ "&order=" ++ v1)) (JStr v2)) net
  = issued (sortRecords (JStr e) (JStr c) (JStr (v1 ++ "&order=" ++ v2))) net.
Proof.
  rewrite (search_request (JStr e) (JStr (c ++ "&value=" ++ v1)) (JStr v2)
             _ _ _ net eq_refl eq_refl eq_refl),
          (search_request (JStr e) (JStr c) (JStr (v1 ++ "&value=" ++ v2))
             _ _ _ net eq_refl eq_refl eq_refl),
          (sort_request (JStr e) (JStr (c ++ "&order=" ++ v1)) (JStr v2)
             _ _ _ net eq_refl eq_refl eq_refl),
          (sort_request (JStr e) (JStr c) (JStr (v1 ++ "&order=" ++ v2))
             _ _ _ net eq_refl eq_refl eq_refl).
  split; do 2 f_equal; rewrite !JSONFacts.append_assoc; reflexivity.
Qed.

(** Two texts cut at their first ampersand agree piece by piece. *)
Lemma split_at_ampersand (s s' t t' : string) :
  no_ampersand s = true ->
  no_ampersand s' = true ->
  s ++ String "&" t = s' ++ String "&" t' ->
  s = s' /\ t = t'.
Proof.
  revert s'. induction s as [ | a s IH]; intros [ | a' s'] Hs Hs' Heq; simpl in *.
  - injection Heq as ->. split; reflexivity.
  - injection Heq as <- _. discriminate Hs'.
  - injection Heq as -> _. discriminate Hs.
  - injection Heq as <- Heq.
    apply andb_true_iff in Hs, Hs'.
    destruct (IH s' (proj2 Hs) (proj2 Hs') Heq) as [-> ->]. split; reflexivity.
Qed.

(** The URL of a search tells the strings its three arguments were
    converted to, when those of the entity and of the column hold no
    ampersand: two searches with the same URL were called with
    arguments that render to the same entity, column and value.  (It
    does not tell the arguments themselves: the number 1 and the string
    "1" render alike.)  The same holds for a sort. *)
Theorem query_identifies_arguments
    (net net' : Network) (e c v e' c' v' : JSValue) (se sc sv se' sc' sv' : string) :
  ToString e = Fulfilled se -> ToString c = Fulfilled sc -> ToString v = Fulfilled sv ->
  ToString e' = Fulfilled se' -> ToString c' = Fulfilled sc' -> ToString v' = Fulfilled sv' ->
  no_ampersand se = true -> no_ampersand sc = true ->
  no_ampersand se' = true -> no_ampersand sc' = true ->
  (urls (searchRecords e c v) net = urls (searchRecords e' c' v') net' ->
   se = se' /\ sc = sc' /\ sv = sv') /\
  (urls (sortRecords e c v) net = urls (sortRecords e' c' v') net' ->
   se = se' /\ sc = sc' /\ sv = sv').
Proof.
  intros He Hc Hv He' Hc' Hv' Hse Hsc Hse' Hsc'. unfold urls.
  rewrite (search_request e c v se sc sv net He Hc Hv),
          (search_request e' c' v' se' sc' sv' net' He' Hc' Hv'),
          (sort_request e c v se sc sv net He Hc Hv),
          (sort_request e' c' v' se' sc' sv' net' He' Hc' Hv').
  cbn [map new_request req_url].
  split; intros Hurl; injection Hurl as Hurl;
    destruct (split_at_ampersand _ _ _ _ Hse Hse' Hurl) as [-> Hrest];
    injection Hrest as Hrest;
    destruct (split_at_ampersand _ _ _ _ Hsc Hsc' Hrest) as [-> Hvalue];
    injection Hvalue as ->; repeat split.
Qed.

Lemma query_identifies_arguments_witness :
  (ToString (JNum 1) = Fulfilled "1" /\ ToString (JStr "1") = Fulfilled "1" /\
   ToString JNull = Fulfilled "null" /\ ToString (JStr "null") = Fulfilled "null" /\
   ToString (JStr "grade") = Fulfilled "grade" /\
   no_ampersand "1" = true /\ no_ampersand "grade" = true) /\
  urls (searchRecords (JNum 1) (JStr "grade") JNull) network_down
  = urls (searchRecords (JStr "1") (JStr "grade") (JStr "null"))
      (always_responds server_error) /\
  ("1" = "1" /\ "grade" = "grade" /\ "null" = "null").
Proof.
  split; [repeat split | split; [reflexivity | ]].
  apply (proj1 (query_identifies_arguments network_down (always_responds server_error)
                  (JNum 1) (JStr "grade") JNull (JStr "1") (JStr "grade") (JStr "null")
                  "1" "grade" "null" "1" "grade" "null"
                  eq_refl eq_refl eq_refl eq_refl eq_refl eq_refl
                  eq_refl eq_refl eq_refl eq_refl)).
  reflexivity.
Defined.

(** ** Round trip through the client *)

(** Against a backend that sends the body of the request back with
    status 200, every write whose URL can be built fulfils with the
    very payload it was called with, for a payload of the kind the
    parser gives back: what [JSON.stringify] put on the wire,
    [response.json()] reads back unchanged. *)
Theorem echoed_payload_comes_back (e : Entity) (o : Mutation) (id payload : JSValue) :
  convertible (mutation e o id payload) = true ->
  JSON.well_formed payload ->
  outcome (invoke (mutation e o id payload)) echo = Fulfilled payload.
Proof.
  intros Hc Hwf.
  destruct (write_request e o id payload echo Hc) as [url Hissued].
  destruct (call_ends _ echo Hc) as (request & Hissued' & Hrun).
  rewrite Hissued in Hissued'. injection Hissued' as <-.
  unfold outcome. rewrite Hrun. unfold ends_with, echo. cbn [req_body].
  change (ok {| status := 200; text := JSON.stringify payload |}) with true.
  cbn [fst text]. apply (JSONFacts.parse_stringify payload Hwf).
Qed.

Lemma echoed_payload_comes_back_witness :
  convertible insert_student_ada = true /\
  outcome (invoke insert_student_ada) echo
  = Fulfilled (JObj [("name", JStr "Ada"); ("marks", JArr [JNum 9; JNum (-1); JNull]);
                     ("active", JBool true)]).
Proof.
  split; [reflexivity | ].
  apply (echoed_payload_comes_back Students Insert JNull _ eq_refl ada_well_formed).
Defined.

(** ** Success on any ok status *)

(** For every operation and every ok status, not only 200: when the
    body of the response to the call's request is the serialisation of
    a value [B] of the kind the parser gives back, the call fulfils
    with [B]. *)
Theorem serialised_body_comes_back (c : Call) (net : Network) :
  convertible c = true ->
  exists request : Request,
    issued (invoke c) net = [request] /\
    forall (response : Response) (B : JSValue),
      net request = Fulfilled response ->
      200 <= status response <= 299 ->
      JSON.well_formed B ->
      text response = JSON.stringify B ->
      outcome (invoke c) net = Fulfilled B.
Proof.
  intros Hc. destruct (call_ends c net Hc) as (request & Hissued & Hrun).
  exists request. split; [exact Hissued | ].
  intros response B Hnet Hstatus Hwf Htext.
  apply ok_range in Hstatus.
  rewrite (ends_with_response c net request response Hnet), Hstatus in Hrun.
  unfold outcome. rewrite Hrun. simpl.
  rewrite Htext. apply (JSONFacts.parse_stringify B Hwf).
Qed.

Lemma alice_well_formed : JSON.well_formed alice.
Proof.
  simpl. repeat split.
  repeat (constructor; [simpl; intuition discriminate | ]). constructor.
Defined.

Lemma serialised_body_comes_back_witness :
  convertible update_mentor_7 = true /\
  issued (invoke update_mentor_7) (always_responds created_response)
    = [update_mentor_7_request] /\
  outcome (invoke update_mentor_7) (always_responds created_response) = Fulfilled alice.
Proof.
  destruct (serialised_body_comes_back update_mentor_7 (always_responds created_response)
              eq_refl)
    as (request & Hissued & Hends).
  split; [reflexivity | split; [reflexivity | ]].
  apply (Hends created_response alice);
    [reflexivity | split; intro H; discriminate H | exact alice_well_formed | reflexivity].
Defined.
